(** * Agent bridge: the file-backed mailbox relay of [agent-bridge.py]

    The relay keeps one text file, [.agent-comm/messages.jsonl].
    [send_message] appends one JSON record per call; [get_new_messages]
    reads every line, returns the records addressed to the caller and
    writes the other lines back.

    How the program is modelled:
    - a Python [str] is the list of its code points ([N]);
    - the log is the text of the file, or is missing.  The file is
      read as [open(COMM_FILE, "r", encoding="utf-8")] reads it, with
      universal newlines: [for line in f] ends a line at ["\n"], at
      ["\r"] and at ["\r\n"], and hands out each of them as ["\n"].
      What is written is written as it is (the line end of the host is
      ["\n"]);
    - [json.dumps] and [json.loads] are an encoder and a
      character-driven decoder for the whole of JSON, so that the lines
      written by [send_message] are really parsed back by
      [get_new_messages]; a number is kept as its literal.  The decoder
      has the two limits of CPython's: it raises [RecursionError] when
      more arrays and objects are open than the interpreter has room
      for, and [ValueError] on an integer literal of more digits than
      [int] converts; neither is a [json.JSONDecodeError];
    - these limits are the fields of an [interpreter], on which
      every call runs.  They are fixed while a call runs, and the
      calls of one history run on the same interpreter: the relay is
      called at the same depth of the stack each time.  The
      interpreter has the stack that the calls of the relay itself
      need;
    - [datetime.now()] is an argument of [send_message];
    - an exception is a result [Raise e] of the call.

    Outside the model: a file that is not valid UTF-8, on which the
    reader raises [UnicodeDecodeError] in the loop, and the errors of
    the storage itself ([OSError]).

    The page index of [01_pageindex_example.py] is modelled beside
    the relay, in [Module PageIndex].

    The first part holds the definitions, the second part the lemmas
    and the theorems about them. *)

From Stdlib Require Import Ascii String List NArith ZArith Bool Lia Permutation Sorted.
Import ListNotations.

Set Warnings "-register-all".

Local Open Scope N_scope.
Local Open Scope list_scope.

(** ** Python strings *)

Definition pystr := list N.

Definition ch (a : ascii) : N := N_of_ascii a.

Definition str (s : string) : pystr := map N_of_ascii (list_ascii_of_string s).

(** JSON text written with apostrophes in place of double quotes. *)
Definition jtext (s : string) : pystr :=
  map (fun c => if c =? 39 then 34 else c) (str s).

Fixpoint pystr_eqb (a b : pystr) : bool :=
  match a, b with
  | [], [] => true
  | x :: a', y :: b' => (x =? y) && pystr_eqb a' b'
  | _, _ => false
  end.

(** A code point is a surrogate when it lies in U+D800..U+DFFF. *)
Definition is_high (c : N) : bool := (0xD800 <=? c) && (c <=? 0xDBFF).
Definition is_low (c : N) : bool := (0xDC00 <=? c) && (c <=? 0xDFFF).

(** Unicode scalar values: the code points of UTF-8 encodable text. *)
Definition is_scalar (c : N) : bool :=
  (c <? 0xD800) || ((0xDFFF <? c) && (c <? 0x110000)).

Definition is_text (s : pystr) : bool := forallb is_scalar s.

(** [str.isspace], the characters removed by [str.strip()]. *)
Definition py_isspace (c : N) : bool :=
  ((9 <=? c) && (c <=? 13)) || ((28 <=? c) && (c <=? 32))
  || (c =? 0x85) || (c =? 0xA0) || (c =? 0x1680)
  || ((0x2000 <=? c) && (c <=? 0x200A))
  || (c =? 0x2028) || (c =? 0x2029) || (c =? 0x202F)
  || (c =? 0x205F) || (c =? 0x3000).

(** [not line.strip()] *)
Definition is_blank (line : pystr) : bool := forallb py_isspace line.

(** ** JSON values *)

Inductive json :=
| JNull
| JBool (b : bool)
| JNum (lit : pystr)
| JStr (s : pystr)
| JArr (items : list json)
| JObj (members : list (pystr * json)).

(** *** [json.dumps] (ensure_ascii, separators [", "] and [": "]) *)

Definition hexdigit (d : N) : N := if d <? 10 then 48 + d else 87 + d.

Definition hex4 (n : N) : pystr :=
  [hexdigit (n / 4096 mod 16); hexdigit (n / 256 mod 16);
   hexdigit (n / 16 mod 16); hexdigit (n mod 16)].

Definition escape_char (c : N) : pystr :=
  if c =? 34 then [92; 34]
  else if c =? 92 then [92; 92]
  else if c =? 10 then [92; ch "n"]
  else if c =? 13 then [92; ch "r"]
  else if c =? 9 then [92; ch "t"]
  else if c =? 8 then [92; ch "b"]
  else if c =? 12 then [92; ch "f"]
  else if (32 <=? c) && (c <=? 126) then [c]
  else if c <? 0x10000 then 92 :: ch "u" :: hex4 c
  else
    let n := c - 0x10000 in
    let s1 := N.lor 0xD800 (N.land (N.shiftr n 10) 0x3FF) in
    let s2 := N.lor 0xDC00 (N.land n 0x3FF) in
    (92 :: ch "u" :: hex4 s1) ++ (92 :: ch "u" :: hex4 s2).

Definition encode_string (s : pystr) : pystr :=
  34 :: flat_map escape_char s ++ [34].

Fixpoint join (sep : pystr) (parts : list pystr) : pystr :=
  match parts with
  | [] => []
  | [p] => p
  | p :: rest => p ++ sep ++ join sep rest
  end.

Fixpoint json_dumps (v : json) : pystr :=
  match v with
  | JNull => str "null"
  | JBool true => str "true"
  | JBool false => str "false"
  | JNum lit => lit
  | JStr s => encode_string s
  | JArr items => ch "[" :: join (str ", ") (map json_dumps items) ++ [ch "]"]
  | JObj members =>
      ch "{" ::
      join (str ", ")
        (map (fun kv => encode_string (fst kv) ++ str ": " ++ json_dumps (snd kv))
             members)
      ++ [ch "}"]
  end.
(** ** Exceptions *)

Inductive exn :=
| JSONDecodeError
| ValueError
| RecursionError
| AttributeError
| TypeError
| KeyError (key : pystr).

Inductive result (A : Type) :=
| Return (a : A)
| Raise (e : exn).

Arguments Return {A} a.
Arguments Raise {A} e.

Definition bind {A B : Type} (r : result A) (k : A -> result B) : result B :=
  match r with
  | Return a => k a
  | Raise e => Raise e
  end.

Notation "x <- r ;; k" := (bind r (fun x => k))
  (at level 61, r at next level, right associativity).

(** ** The interpreter

    What [json.loads] does with a text depends on the text and on
    four numbers of the interpreter that runs the call.

    The scanner of [json.loads] counts every array and object that it
    has open against the recursion limit of the interpreter.
    [nesting_limit] is the number of them that it can have open at
    once: opening one more raises [RecursionError].  To raise an
    exception of its own the scanner needs room as well, and when it
    has none the exception that leaves it is [RecursionError].
    [raise_limit] is the deepest nesting at which it can still raise
    [StopIteration], which becomes the [json.JSONDecodeError]
    "Expecting value", or the [ValueError] of [int];
    [message_limit] is the deepest nesting at which it can still
    build a [json.JSONDecodeError] with a message, which takes a call
    of Python code.  The three depend on the recursion limit, on
    the depth of the stack at the call and on what the interpreter
    has run before; they are fixed while one call runs.  With
    CPython 3.11 the second is the first or up to two less, and the
    third three to five less than the first.

    [int_max_str_digits] is [sys.get_int_max_str_digits()], the
    longest integer literal that [int] converts; [0] is no limit. *)

Class interpreter := {
  nesting_limit : nat;
  raise_limit : nat;
  message_limit : nat;
  int_max_str_digits : nat
}.

(** *** [json.loads]

    The decoder reads one character at a time.  Its state is a mode and
    the stack of the arrays and objects that are still open. *)

Inductive strmode :=
| SPlain
| SEsc
| SHex (todo : nat) (v : N)
| SHi (hi : N)
| SHiEsc (hi : N)
| SHiHex (hi : N) (todo : nat) (v : N).

Inductive nummode := NMinus | NZero | NInt | NDot | NFrac | NE | NESign | NExp.

Inductive frame :=
| FArr (items : list json)
| FObj (members : list (pystr * json)) (key : option pystr).

Inductive mode :=
| MValue
| MValueOrEnd
| MKeyOrEnd
| MKey
| MColon
| MAfter
| MStr (iskey : bool) (acc : pystr) (sm : strmode)
| MNum (acc : pystr) (nm : nummode)
| MLit (rest : pystr) (v : json)
| MDone (v : json)
| MErr (e : exn).

Definition pstate : Type := mode * list frame.

(** The decoder stops with an exception; [failed] is
    [json.JSONDecodeError]. *)
Definition raised (e : exn) : pstate := (MErr e, []).

Definition failed : pstate := raised JSONDecodeError.

Definition is_ws (c : N) : bool :=
  (c =? 32) || (c =? 9) || (c =? 10) || (c =? 13).

Definition is_digit (c : N) : bool := (48 <=? c) && (c <=? 57).

Definition hexval (c : N) : option N :=
  if (48 <=? c) && (c <=? 57) then Some (c - 48)
  else if (97 <=? c) && (c <=? 102) then Some (c - 87)
  else if (65 <=? c) && (c <=? 70) then Some (c - 55)
  else None.

Definition join_surrogates (hi lo : N) : N :=
  0x10000 + N.lor (N.shiftl (hi - 0xD800) 10) (lo - 0xDC00).

(** A value is finished: it goes to the enclosing array or object, or
    is the result. *)
Definition complete (v : json) (stack : list frame) : pstate :=
  match stack with
  | [] => (MDone v, [])
  | FArr items :: rest => (MAfter, FArr (items ++ [v]) :: rest)
  | FObj members (Some k) :: rest =>
      (MAfter, FObj (members ++ [(k, v)]) None :: rest)
  | FObj _ None :: _ => failed
  end.

Definition close_string (iskey : bool) (s : pystr) (stack : list frame) : pstate :=
  if iskey then
    match stack with
    | FObj members None :: rest => (MColon, FObj members (Some s) :: rest)
    | _ => failed
    end
  else complete (JStr s) stack.

Definition unescape (c : N) : option N :=
  if c =? 34 then Some 34
  else if c =? 92 then Some 92
  else if c =? ch "/" then Some (ch "/")
  else if c =? ch "b" then Some 8
  else if c =? ch "f" then Some 12
  else if c =? ch "n" then Some 10
  else if c =? ch "r" then Some 13
  else if c =? ch "t" then Some 9
  else None.

(** A [\uXXXX] unit is decoded: a high surrogate waits for its pair. *)
Definition finish_unit (iskey : bool) (acc : pystr) (u : N) (stack : list frame) : pstate :=
  if is_high u then (MStr iskey acc (SHi u), stack)
  else (MStr iskey (acc ++ [u]) SPlain, stack).

Definition num_final (nm : nummode) : bool :=
  match nm with
  | NZero | NInt | NFrac | NExp => true
  | _ => false
  end.

Definition count_digits (acc : pystr) : nat := length (filter is_digit acc).

Section Interpreter.

Context {py : interpreter}.

(** The exceptions of the scanner, with [stack] the arrays and
    objects that are open: no value begins where one must
    ([StopIteration], for the caller "Expecting value"); the text is
    wrong otherwise (a [json.JSONDecodeError] with its message); an
    integer has too many digits. *)
Definition no_value (stack : list frame) : exn :=
  if (length stack <=? raise_limit)%nat then JSONDecodeError else RecursionError.

Definition bad_syntax (stack : list frame) : exn :=
  if (length stack <=? message_limit)%nat then JSONDecodeError else RecursionError.

Definition bad_int (stack : list frame) : exn :=
  if (length stack <=? raise_limit)%nat then ValueError else RecursionError.

(** After a value: a separator, a closing bracket, or white space. *)
Definition after_value (c : N) (stack : list frame) : pstate :=
  if is_ws c then (MAfter, stack)
  else
    match stack with
    | FArr items :: rest =>
        if c =? ch "," then (MValue, stack)
        else if c =? ch "]" then complete (JArr items) rest
        else raised (bad_syntax stack)
    | FObj members None :: rest =>
        if c =? ch "," then (MKey, stack)
        else if c =? ch "}" then complete (JObj members) rest
        else raised (bad_syntax stack)
    | _ => failed
    end.

(** After the value at the top the text must end: "Extra data" is
    raised by [decode], when the scanner has returned. *)
Definition step_post (st : pstate) (c : N) : pstate :=
  match st with
  | (MAfter, stack) => after_value c stack
  | (MDone v, []) => if is_ws c then (MDone v, []) else failed
  | (MErr e, _) => raised e
  | _ => failed
  end.

Definition step_plain (iskey : bool) (acc : pystr) (c : N) (stack : list frame) : pstate :=
  if c =? 34 then close_string iskey acc stack
  else if c =? 92 then (MStr iskey acc SEsc, stack)
  else if c <? 32 then raised (bad_syntax stack)
  else (MStr iskey (acc ++ [c]) SPlain, stack).

Definition step_esc (iskey : bool) (acc : pystr) (c : N) (stack : list frame) : pstate :=
  if c =? ch "u" then (MStr iskey acc (SHex 4 0), stack)
  else match unescape c with
       | Some d => (MStr iskey (acc ++ [d]) SPlain, stack)
       | None => raised (bad_syntax stack)
       end.

Definition step_string (iskey : bool) (acc : pystr) (sm : strmode) (c : N)
    (stack : list frame) : pstate :=
  match sm with
  | SPlain => step_plain iskey acc c stack
  | SEsc => step_esc iskey acc c stack
  | SHex todo v =>
      match hexval c with
      | Some d =>
          match todo with
          | 0%nat => failed
          | 1%nat => finish_unit iskey acc (v * 16 + d) stack
          | S todo' => (MStr iskey acc (SHex todo' (v * 16 + d)), stack)
          end
      | None => raised (bad_syntax stack)
      end
  | SHi hi =>
      if c =? 92 then (MStr iskey acc (SHiEsc hi), stack)
      else step_plain iskey (acc ++ [hi]) c stack
  | SHiEsc hi =>
      if c =? ch "u" then (MStr iskey acc (SHiHex hi 4 0), stack)
      else step_esc iskey (acc ++ [hi]) c stack
  | SHiHex hi todo v =>
      match hexval c with
      | Some d =>
          match todo with
          | 0%nat => failed
          | 1%nat =>
              let lo := v * 16 + d in
              if is_low lo
              then (MStr iskey (acc ++ [join_surrogates hi lo]) SPlain, stack)
              else finish_unit iskey (acc ++ [hi]) lo stack
          | S todo' => (MStr iskey acc (SHiHex hi todo' (v * 16 + d)), stack)
          end
      | None => raised (bad_syntax stack)
      end
  end.

(** An array or an object is opened, when the interpreter has room
    for one more. *)
Definition open_frame (m : mode) (fr : frame) (stack : list frame) : pstate :=
  if (length stack <? nesting_limit)%nat then (m, fr :: stack)
  else raised RecursionError.

Definition start_value (c : N) (stack : list frame) : pstate :=
  if c =? 34 then (MStr false [] SPlain, stack)
  else if c =? ch "{" then open_frame MKeyOrEnd (FObj [] None) stack
  else if c =? ch "[" then open_frame MValueOrEnd (FArr []) stack
  else if c =? ch "-" then (MNum [c] NMinus, stack)
  else if c =? ch "0" then (MNum [c] NZero, stack)
  else if is_digit c then (MNum [c] NInt, stack)
  else if c =? ch "t" then (MLit (str "rue") (JBool true), stack)
  else if c =? ch "f" then (MLit (str "alse") (JBool false), stack)
  else if c =? ch "n" then (MLit (str "ull") JNull, stack)
  else if c =? ch "N" then (MLit (str "aN") (JNum (str "NaN")), stack)
  else if c =? ch "I" then (MLit (str "nfinity") (JNum (str "Infinity")), stack)
  else raised (no_value stack).

(** The number that ends where the decoder stands is an integer, and
    [int] refuses its digits.  In the modes [NDot], [NE] and [NESign]
    the characters after the digits begin no fraction and no exponent:
    the number is what stands before them, an integer unless it has a
    fraction. *)
Definition too_long (acc : pystr) (nm : nummode) : bool :=
  let long := (0 <? int_max_str_digits)%nat
              && (int_max_str_digits <? count_digits acc)%nat in
  match nm with
  | NMinus | NFrac | NExp => false
  | NZero | NInt | NDot => long
  | NE | NESign => negb (existsb (N.eqb (ch ".")) acc) && long
  end.

(** The number is converted when it ends, before the decoder looks at
    what follows. *)
Definition step_number (acc : pystr) (nm : nummode) (c : N) (stack : list frame) : pstate :=
  let more nm' := (MNum (acc ++ [c]) nm', stack) in
  let finish :=
    if too_long acc nm then raised (bad_int stack)
    else step_post (complete (JNum acc) stack) c in
  let stop :=
    if too_long acc nm then raised (bad_int stack) else raised (bad_syntax stack) in
  let is_e := (c =? ch "e") || (c =? ch "E") in
  match nm with
  | NMinus =>
      if c =? ch "0" then more NZero
      else if is_digit c then more NInt
      else if c =? ch "I" then (MLit (str "nfinity") (JNum (str "-Infinity")), stack)
      else raised (no_value stack)
  | NZero =>
      if c =? ch "." then more NDot else if is_e then more NE else finish
  | NInt =>
      if is_digit c then more NInt
      else if c =? ch "." then more NDot else if is_e then more NE else finish
  | NDot => if is_digit c then more NFrac else stop
  | NFrac =>
      if is_digit c then more NFrac else if is_e then more NE else finish
  | NE =>
      if is_digit c then more NExp
      else if (c =? ch "+") || (c =? ch "-") then more NESign
      else stop
  | NESign => if is_digit c then more NExp else stop
  | NExp => if is_digit c then more NExp else finish
  end.

Definition step (st : pstate) (c : N) : pstate :=
  let '(m, stack) := st in
  match m with
  | MValue => if is_ws c then st else start_value c stack
  | MValueOrEnd =>
      if is_ws c then st
      else if c =? ch "]" then
        match stack with
        | FArr items :: rest => complete (JArr items) rest
        | _ => failed
        end
      else start_value c stack
  | MKeyOrEnd =>
      if is_ws c then st
      else if c =? 34 then (MStr true [] SPlain, stack)
      else if c =? ch "}" then
        match stack with
        | FObj members None :: rest => complete (JObj members) rest
        | _ => failed
        end
      else raised (bad_syntax stack)
  | MKey =>
      if is_ws c then st
      else if c =? 34 then (MStr true [] SPlain, stack)
      else raised (bad_syntax stack)
  | MColon =>
      if is_ws c then st
      else if c =? ch ":" then (MValue, stack)
      else raised (bad_syntax stack)
  | MAfter => after_value c stack
  | MStr iskey acc sm => step_string iskey acc sm c stack
  | MNum acc nm => step_number acc nm c stack
  | MLit rest v =>
      match rest with
      | [] => failed
      | x :: rest' =>
          if c =? x then
            match rest' with
            | [] => complete v stack
            | _ => (MLit rest' v, stack)
            end
          else raised (no_value stack)
      end
  | MDone v => step_post st c
  | MErr e => raised e
  end.

Definition run (st : pstate) (s : pystr) : pstate := fold_left step s st.

(** The end of the text. *)
Definition final (st : pstate) : result json :=
  let '(m, stack) := st in
  match m with
  | MDone v =>
      match stack with
      | [] => Return v
      | _ => Raise JSONDecodeError
      end
  | MErr e => Raise e
  | MValue | MValueOrEnd | MLit _ _ => Raise (no_value stack)
  | MKeyOrEnd | MKey | MColon | MAfter | MStr _ _ _ => Raise (bad_syntax stack)
  | MNum acc nm =>
      if too_long acc nm then Raise (bad_int stack)
      else
        match nm, stack with
        | NMinus, _ => Raise (no_value stack)
        | _, [] => if num_final nm then Return (JNum acc) else Raise JSONDecodeError
        | _, _ => Raise (bad_syntax stack)
        end
  end.

(** [json.loads(s)]: the value, or the exception that it raises. *)
Definition json_loads (s : pystr) : result json := final (run (MValue, []) s).

(** [msg.get(k)] and [msg[k]] on a decoded value.  A Python [dict]
    keeps the last value given for a key. *)
Fixpoint lookup (k : pystr) (members : list (pystr * json)) : option json :=
  match members with
  | [] => None
  | (k', v) :: rest =>
      match lookup k rest with
      | Some x => Some x
      | None => if pystr_eqb k' k then Some v else None
      end
  end.

Definition py_get (v : json) (k : pystr) : result (option json) :=
  match v with
  | JObj members => Return (lookup k members)
  | _ => Raise AttributeError
  end.

Definition py_item (v : json) (k : pystr) : result json :=
  match v with
  | JObj members =>
      match lookup k members with
      | Some x => Return x
      | None => Raise (KeyError k)
      end
  | _ => Raise TypeError
  end.

(** [v == s] for a string [s]: only an equal JSON string is equal. *)
Definition py_eq_str (v : option json) (s : pystr) : bool :=
  match v with
  | Some (JStr x) => pystr_eqb x s
  | _ => false
  end.

(** [l[start:]] *)
Definition slice_from {A : Type} (start : Z) (l : list A) : list A :=
  let n := Z.of_nat (length l) in
  let s := if (start <? 0)%Z then Z.max 0 (start + n) else Z.min start n in
  skipn (Z.to_nat s) l.

(** ** The clock: [datetime.now().isoformat()] *)

Record datetime := {
  year : N; month : N; day : N;
  hour : N; minute : N; second : N; microsecond : N
}.

(** The last [w] decimal digits of [n]: the fields of a [datetime] fit
    the widths they are printed with. *)
Fixpoint digits (w : nat) (n : N) : pystr :=
  match w with
  | O => []
  | S w' => digits w' (n / 10) ++ [48 + n mod 10]
  end.

Definition isoformat (d : datetime) : pystr :=
  digits 4 (year d) ++ str "-" ++ digits 2 (month d) ++ str "-" ++ digits 2 (day d)
  ++ str "T"
  ++ digits 2 (hour d) ++ str ":" ++ digits 2 (minute d) ++ str ":" ++ digits 2 (second d)
  ++ (if microsecond d =? 0 then [] else str "." ++ digits 6 (microsecond d)).

(** ** The log file

    [None] is a missing file; [Some t] is a file whose text is [t]. *)

Definition store := option pystr.

(** The storage steps of the two [open] modes that write. *)
Inductive fop :=
| OpenW                  (* open(COMM_FILE, "w"): the file is emptied *)
| WriteStr (s : pystr)   (* a write at the end of what was written *)
| AppendStr (s : pystr). (* open(COMM_FILE, "a") and one write *)

Definition do_op (f : store) (op : fop) : store :=
  match op with
  | OpenW => Some []
  | WriteStr s | AppendStr s =>
      match f with
      | Some t => Some (t ++ s)
      | None => Some s
      end
  end.

Definition run_ops (ops : list fop) (f : store) : store := fold_left do_op ops f.

(** Universal newlines: what the reader makes of the text of the
    file.  A ["\r"] is read as ["\n"], and a ["\n"] that follows a
    ["\r"] is passed over; [cr] says that the character before was a
    ["\r"]. *)
Fixpoint universal (cr : bool) (t : pystr) : pystr :=
  match t with
  | [] => []
  | c :: rest =>
      if c =? 13 then 10 :: universal true rest
      else if cr && (c =? 10) then universal false rest
      else c :: universal false rest
  end.

(** The lines of a text, each with its ["\n"] but possibly the last. *)
Fixpoint cut_lines (t : pystr) : list pystr :=
  match t with
  | [] => []
  | c :: rest =>
      if c =? 10 then [c] :: cut_lines rest
      else match cut_lines rest with
           | [] => [[c]]
           | l :: ls => (c :: l) :: ls
           end
  end.

(** [for line in f], on a file whose text is [t]. *)
Definition readlines (t : pystr) : list pystr := cut_lines (universal false t).

(** ** The relay *)

Definition agents : list pystr := [str "trae"; str "kilo"; str "grok"].

(** [x in ("trae", "kilo", "grok")] *)
Definition valid_agent (x : pystr) : bool := existsb (pystr_eqb x) agents.

Definition send_error : pystr := str "ERROR: to must be 'trae', 'kilo', or 'grok'".

Definition send_confirmation (to session : pystr) : pystr :=
  [0x201A; 0xFA; 0xD6] ++ str " Message sent to " ++ to
  ++ str " (session: " ++ session ++ str ")".

(** The record [msg] built by [send_message]. *)
Definition record (now : datetime) (to session content : pystr) : json :=
  JObj [(str "timestamp", JStr (isoformat now));
        (str "from", JStr (str "other"));
        (str "to", JStr to);
        (str "session", JStr session);
        (str "content", JStr content)].

Definition record_line (now : datetime) (to session content : pystr) : pystr :=
  json_dumps (record now to session content) ++ [10].

(** [send_message(to, content, session)]: the text it returns and the
    log it leaves. *)
Definition send_message (to content session : pystr) (now : datetime) (f : store)
    : pystr * store :=
  if negb (valid_agent to) then (send_error, f)
  else
    let msg := record now to session content in
    let f' := do_op f (AppendStr (json_dumps msg ++ [10])) in
    (send_confirmation to session, f').

(** An entry of the list returned by [get_new_messages]. *)
Record message := {
  m_from : pystr;
  m_content : json;
  m_timestamp : json
}.

(** The body of the loop over the lines: a blank line is passed over,
    and the [try] block hands a line on which [json.loads] raises
    [json.JSONDecodeError] to the [except] branch.  Any other
    exception leaves the loop. *)
Definition scan_line (for_agent session line : pystr)
    (acc : list message * list pystr) : result (list message * list pystr) :=
  let '(messages, new_lines) := acc in
  if is_blank line then Return acc
  else
    match
      (msg <- json_loads line ;;
       to_v <- py_get msg (str "to") ;;
       if py_eq_str to_v for_agent then
         session_v <- py_get msg (str "session") ;;
         if py_eq_str session_v session then
           c <- py_item msg (str "content") ;;
           t <- py_item msg (str "timestamp") ;;
           Return (messages ++ [{| m_from := str "the-other-agent";
                                   m_content := c;
                                   m_timestamp := t |}],
                   new_lines)
         else Return (messages, new_lines ++ [line])
       else Return (messages, new_lines ++ [line]))
    with
    | Raise JSONDecodeError => Return (messages, new_lines ++ [line])
    | r => r
    end.

(** [for line in f: ...] with [messages] and [new_lines]. *)
Fixpoint scan (for_agent session : pystr) (lines : list pystr)
    (acc : list message * list pystr) : result (list message * list pystr) :=
  match lines with
  | [] => Return acc
  | line :: rest =>
      acc' <- scan_line for_agent session line acc ;;
      scan for_agent session rest acc'
  end.

(** The storage steps of the rewrite:
    [with open(COMM_FILE, "w") as f: f.writelines(new_lines)]. *)
Definition rewrite_ops (new_lines : list pystr) : list fop :=
  OpenW :: map WriteStr new_lines.

(** [messages[-limit:] if messages else []] *)
Definition limited (limit : Z) (messages : list message) : list message :=
  match messages with
  | [] => []
  | _ => slice_from (- limit) messages
  end.

(** [get_new_messages(for_agent, session, limit)].  An exception in
    the loop leaves the function before the file is opened for
    writing. *)
Definition get_new_messages (for_agent session : pystr) (limit : Z) (f : store)
    : result (list message) * store :=
  if negb (valid_agent for_agent) then (Return [], f)   (* return [] *)
  else
    match f with
    | None => (Return [], f)                            (* not COMM_FILE.exists() *)
    | Some text =>
        match scan for_agent session (readlines text) ([], []) with
        | Raise e => (Raise e, f)
        | Return (messages, new_lines) =>
            (Return (limited limit messages), run_ops (rewrite_ops new_lines) f)
        end
    end.

(** ** Histories of calls *)

Inductive call :=
| Send (to content session : pystr) (now : datetime)
| Receive (for_agent session : pystr) (limit : Z).

Inductive reply :=
| Sent (text : pystr)
| Received (r : result (list message)).

Definition exec (c : call) (f : store) : reply * store :=
  match c with
  | Send to content session now =>
      let '(t, f') := send_message to content session now f in (Sent t, f')
  | Receive for_agent session limit =>
      let '(r, f') := get_new_messages for_agent session limit f in (Received r, f')
  end.

Fixpoint exec_all (cs : list call) (f : store) : list reply * store :=
  match cs with
  | [] => ([], f)
  | c :: rest =>
      let '(r, f') := exec c f in
      let '(rs, f'') := exec_all rest f' in
      (r :: rs, f'')
  end.

(** The file as the module leaves it when it is loaded:
    [COMM_FILE.touch()]. *)
Definition empty_log : store := Some [].

(** ** What the loop does with one line, and with all of them *)

Inductive verdict :=
| Skipped
| Kept
| Taken (m : message)
| Failed (e : exn).

Definition classify (for_agent session line : pystr) : verdict :=
  match scan_line for_agent session line ([], []) with
  | Raise e => Failed e
  | Return (m :: _, _) => Taken m
  | Return ([], _ :: _) => Kept
  | Return ([], []) => Skipped
  end.

Fixpoint taken (for_agent session : pystr) (lines : list pystr) : list message :=
  match lines with
  | [] => []
  | line :: rest =>
      match classify for_agent session line with
      | Taken m => m :: taken for_agent session rest
      | _ => taken for_agent session rest
      end
  end.

Definition is_kept (for_agent session line : pystr) : bool :=
  match classify for_agent session line with
  | Kept => true
  | _ => false
  end.

Definition kept (for_agent session : pystr) (lines : list pystr) : list pystr :=
  filter (is_kept for_agent session) lines.

Fixpoint first_fail (for_agent session : pystr) (lines : list pystr) : option exn :=
  match lines with
  | [] => None
  | line :: rest =>
      match classify for_agent session line with
      | Failed e => Some e
      | _ => first_fail for_agent session rest
      end
  end.

(** A line that is not blank and on which [json.loads] raises
    [json.JSONDecodeError]. *)
Definition malformed (line : pystr) : bool :=
  negb (is_blank line)
  && match json_loads line with
     | Raise JSONDecodeError => true
     | _ => false
     end.

(** The lines of a file: each ends with its only ["\n"], but the last
    one may have none. *)
Definition terminated_line (l : pystr) : Prop :=
  exists b, l = b ++ [10] /\ ~ In 10 b.

Definition open_line (l : pystr) : Prop := l <> [] /\ ~ In 10 l.

Inductive proper : list pystr -> Prop :=
| proper_nil : proper []
| proper_last l : open_line l -> proper [l]
| proper_cons l ls : terminated_line l -> proper ls -> proper (l :: ls).

(** The text of a file is empty or ends with ["\n"]. *)
Definition closed_text (t : pystr) : bool :=
  match rev t with
  | [] => true
  | c :: _ => c =? 10
  end.

Definition closed_log (f : store) : bool :=
  match f with
  | None => true
  | Some t => closed_text t
  end.

(** The text of a file is empty or ends with a line end of the
    reader: ["\n"] or ["\r"]. *)
Definition ended_text (t : pystr) : bool :=
  match rev t with
  | [] => true
  | c :: _ => (c =? 10) || (c =? 13)
  end.

Definition ended_log (f : store) : bool :=
  match f with
  | None => true
  | Some t => ended_text t
  end.

(** Whether the last character is a ["\r"]; [cr] when there is none. *)
Definition cr_after (cr : bool) (t : pystr) : bool :=
  match rev t with
  | [] => cr
  | c :: _ => c =? 13
  end.

Definition lines_of (f : store) : list pystr :=
  match f with
  | None => []
  | Some t => readlines t
  end.

(** The interpreter has room for one array or object: the object of
    a record.  A relay that is called with the stack all but used up
    has none, and raises [RecursionError] on every record. *)
Definition has_room : Prop := (0 < nesting_limit)%nat.

(** ** Auxiliary notions for the decoder's proofs *)

Definition key_mode (m : mode) : Prop := m = MKey \/ m = MKeyOrEnd.

Definition member_text (kv : pystr * pystr) : pystr :=
  encode_string (fst kv) ++ str ": " ++ encode_string (snd kv).

Definition member_value (kv : pystr * pystr) : pystr * json :=
  (fst kv, JStr (snd kv)).

Definition text_pair (kv : pystr * pystr) : bool :=
  is_text (fst kv) && is_text (snd kv).

(** A dictionary of strings, as [send_message] builds one. *)
Definition flat (kvs : list (pystr * pystr)) : json :=
  JObj (map member_value kvs).

(** The exceptions of the decoder. *)
Definition decoder_error (e : exn) : Prop :=
  e = JSONDecodeError \/ e = ValueError \/ e = RecursionError.

(** A state of the decoder that holds an exception holds one of the
    decoder's own. *)
Definition sound_state (st : pstate) : Prop :=
  match st with
  | (MErr e, _) => decoder_error e
  | _ => True
  end.

(** The entry that [get_new_messages] returns for a record written by
    [send_message]. *)
Definition delivery (now : datetime) (content : pystr) : message :=
  {| m_from := str "the-other-agent";
     m_content := JStr content;
     m_timestamp := JStr (isoformat now) |}.


(** ** Histories: what was sent, what was returned, what is pending *)

(** The calls whose session and content are Unicode text without
    surrogate code points, as a UTF-8 transport delivers them. *)
Definition text_call (c : call) : bool :=
  match c with
  | Send _ content session _ => is_text session && is_text content
  | Receive _ _ _ => true
  end.

(** The messages accepted by the sends of a history. *)
Definition posted (cs : list call) : list message :=
  flat_map (fun c => match c with
                     | Send to content _ now =>
                         if valid_agent to then [delivery now content] else []
                     | Receive _ _ _ => []
                     end) cs.

(** The messages returned by the receives of a history. *)
Definition delivered (rs : list reply) : list message :=
  flat_map (fun r => match r with
                     | Received (Return ms) => ms
                     | _ => []
                     end) rs.

(** The message that a line of the log holds, if it holds one. *)
Definition line_message (line : pystr) : option message :=
  match json_loads line with
  | Return (JObj ms) =>
      match lookup (str "content") ms, lookup (str "timestamp") ms with
      | Some c, Some t => Some {| m_from := str "the-other-agent";
                                 m_content := c;
                                 m_timestamp := t |}
      | _, _ => None
      end
  | _ => None
  end.

Definition pending_lines (lines : list pystr) : list message :=
  flat_map (fun l => match line_message l with
                     | Some m => [m]
                     | None => []
                     end) lines.

(** The messages that wait in the log. *)
Definition pending (f : store) : list message := pending_lines (lines_of f).

(** A line written by [send_message]. *)
Definition sent_line (l : pystr) : Prop :=
  exists now to session content,
    valid_agent to = true /\ is_text session = true /\ is_text content = true
    /\ l = record_line now to session content.

(** A log that holds lines written by [send_message] and nothing else. *)
Definition sane (f : store) : Prop :=
  exists ls, f = Some (concat ls) /\ Forall sent_line ls.

Definition no_newline (s : pystr) : bool := forallb (fun x => negb (x =? 10)) s.

(** ** Interrupted rewrites *)

(** The log when the process stops after [k] storage steps of the
    rewrite: the results of [scan] are in memory, the file has been
    opened for writing or not, and some lines have been written. *)
Definition receive_interrupted (for_agent session : pystr) (k : nat) (f : store)
    : store :=
  if negb (valid_agent for_agent) then f
  else
    match f with
    | None => f
    | Some text =>
        match scan for_agent session (readlines text) ([], []) with
        | Raise _ => f
        | Return (_, new_lines) => run_ops (firstn k (rewrite_ops new_lines)) f
        end
    end.

(** ** Several processes on one log

    Each process runs the tool calls as they are written.  A send
    touches the file once, when it appends.  A receive touches it
    twice: it reads the lines, and later it rewrites the file from the
    [new_lines] it holds in memory.  The steps of different processes
    follow one another in any order. *)









(** ** Further notions about the relay *)

(** The characters that [json.dumps] writes: printable ASCII. *)
Definition printable (c : N) : bool := (32 <=? c) && (c <=? 126).

(** The text of the log, empty when the file is missing. *)
Definition text_of (f : store) : pystr :=
  match f with
  | Some t => t
  | None => []
  end.

(** The line decodes to a dictionary for which
    [msg.get("to") == for_agent and msg.get("session") == session]
    holds. *)
Definition addressed (for_agent session line : pystr) : bool :=
  negb (is_blank line)
  && match json_loads line with
     | Return (JObj ms) =>
         py_eq_str (lookup (str "to") ms) for_agent
         && py_eq_str (lookup (str "session") ms) session
     | _ => false
     end.

Definition missing (k : pystr) (ms : list (pystr * json)) : bool :=
  match lookup k ms with
  | Some _ => false
  | None => true
  end.

(** A line on which the loop raises: the decoder raises on it
    something else than [json.JSONDecodeError], or it decodes to
    something that is no dictionary, or to a dictionary for the caller
    that lacks ["content"] or ["timestamp"]. *)
Definition offending (for_agent session line : pystr) : bool :=
  negb (is_blank line)
  && match json_loads line with
     | Raise JSONDecodeError => false
     | Raise _ => true
     | Return (JObj ms) =>
         py_eq_str (lookup (str "to") ms) for_agent
         && py_eq_str (lookup (str "session") ms) session
         && (missing (str "content") ms || missing (str "timestamp") ms)
     | Return _ => true
     end.

Definition clean (for_agent session : pystr) (lines : list pystr) : bool :=
  forallb (fun l => negb (offending for_agent session l)) lines.

(** The lines that a receive writes back. *)
Definition stays (for_agent session line : pystr) : bool :=
  negb (is_blank line) && negb (addressed for_agent session line).

(** The messages that the sends of a history address to a receiver. *)
Definition inbox (for_agent session : pystr) (cs : list call) : list message :=
  flat_map (fun c => match c with
                     | Send to content sess now =>
                         if valid_agent to && pystr_eqb to for_agent
                            && pystr_eqb sess session
                         then [delivery now content] else []
                     | Receive _ _ _ => []
                     end) cs.

(** No receive of the history is for the receiver. *)
Definition undisturbed (for_agent session : pystr) (cs : list call) : bool :=
  forallb (fun c => match c with
                    | Send _ _ _ _ => true
                    | Receive a s _ =>
                        negb (pystr_eqb a for_agent && pystr_eqb s session)
                    end) cs.

(** ** A receive in two parts

    [get_new_messages] reads the file and closes it, and opens it
    again to write.  Between the two another call can run. *)

Inductive reading :=
| Early                                  (* [return []] before the file is read *)
| Stopped (e : exn)                      (* the loop raised *)
| Holding (messages : list message) (new_lines : list pystr).

(** From the start of the call to the end of the loop. *)
Definition read_part (for_agent session : pystr) (f : store) : reading :=
  if negb (valid_agent for_agent) then Early
  else
    match f with
    | None => Early
    | Some text =>
        match scan for_agent session (readlines text) ([], []) with
        | Raise e => Stopped e
        | Return (messages, new_lines) => Holding messages new_lines
        end
    end.

(** The rest of the call, on the file as it is by then. *)
Definition write_part (limit : Z) (r : reading) (f : store)
    : result (list message) * store :=
  match r with
  | Early => (Return [], f)
  | Stopped e => (Raise e, f)
  | Holding messages new_lines =>
      (Return (limited limit messages), run_ops (rewrite_ops new_lines) f)
  end.

End Interpreter.

(** Case analysis on everything that a goal branches on. *)
Ltac every_case :=
  repeat match goal with
         | |- context [match ?x with _ => _ end] => destruct x
         end.

Ltac known_char E :=
  apply N.eqb_eq in E; subst; reflexivity.

(** ** Sample data *)

(** An interpreter with limits such as CPython 3.11 has at its
    defaults, when the relay is called from the top of a script. *)
#[global] Instance cpython : interpreter :=
  {| nesting_limit := 994; raise_limit := 992; message_limit := 989;
     int_max_str_digits := 4300 |}.

Definition noon : datetime :=
  {| year := 2025; month := 6; day := 1;
     hour := 12; minute := 0; second := 0; microsecond := 0 |}.

Definition later : datetime :=
  {| year := 2025; month := 6; day := 1;
     hour := 12; minute := 0; second := 7; microsecond := 250000 |}.

Definition trae : pystr := str "trae".
Definition kilo : pystr := str "kilo".
Definition grok : pystr := str "grok".
Definition default : pystr := str "default".

(** * The page index of [01_pageindex_example.py]

    [SimplePageIndex] keeps a tree: for each file name the sections of
    the document, and for each section the lines that follow its
    heading, with their numbers.  A Python [dict] is an association
    list in insertion order with one entry per key.  The directory of
    documents is outside the program: writing a file is a parameter,
    which may fail. *)

Module PageIndex.

(** [d.get(k)], [k in d] and [d[k] = v] on a dictionary. *)
Fixpoint dict_get {V : Type} (k : pystr) (d : list (pystr * V)) : option V :=
  match d with
  | [] => None
  | (k', v) :: rest => if pystr_eqb k' k then Some v else dict_get k rest
  end.

Fixpoint dict_set {V : Type} (k : pystr) (v : V) (d : list (pystr * V))
    : list (pystr * V) :=
  match d with
  | [] => [(k, v)]
  | (k', v') :: rest =>
      if pystr_eqb k' k then (k, v) :: rest else (k', v') :: dict_set k v rest
  end.

(** [content.split('\n')] *)
Fixpoint split_lines (s : pystr) : list pystr :=
  match s with
  | [] => [[]]
  | c :: rest =>
      if c =? 10 then [] :: split_lines rest
      else match split_lines rest with
           | [] => [[c]]
           | l :: ls => (c :: l) :: ls
           end
  end.

(** [line.startswith('#')] *)
Definition is_heading (l : pystr) : bool :=
  match l with
  | c :: _ => c =? 35
  | [] => false
  end.

Fixpoint lstrip (chars s : pystr) : pystr :=
  match s with
  | [] => []
  | c :: rest => if existsb (N.eqb c) chars then lstrip chars rest else s
  end.

(** [s.strip(chars)] *)
Definition strip (chars s : pystr) : pystr :=
  rev (lstrip chars (rev (lstrip chars s))).

(** [{'line': line_num, 'text': line}] *)
Record entry := { line : nat; text : pystr }.

Definition sections := list (pystr * list entry).

Inductive outcome :=
| Indexed
| WriteFailed
| NoSuchKey (k : pystr).

(** The loop of [add_document] from the line numbered [line_num] on.
    [sections[current_section].append(...)] raises [KeyError] when the
    key is missing. *)
Fixpoint build (lines : list pystr) (line_num : nat)
    (current_section : option pystr) (secs : sections) : sections + pystr :=
  match lines with
  | [] => inl secs
  | l :: rest =>
      if is_heading l then
        let name := strip (str "# ") l in
        build rest (S line_num) (Some name) (dict_set name [] secs)
      else
        match current_section with
        | Some (c :: name') =>
            let name := c :: name' in
            match dict_get name secs with
            | Some es =>
                build rest (S line_num) current_section
                  (dict_set name (es ++ [{| line := line_num; text := l |}]) secs)
            | None => inr name
            end
        | _ => build rest (S line_num) current_section secs
        end
  end.

Section Environment.

(** The directory of documents and [filepath.write_text(content)]:
    the new directory, and whether the write succeeded. *)
Variable FS : Type.
Variable write_text : pystr -> pystr -> FS -> FS * bool.

(** [str.lower] *)
Variable lower : pystr -> pystr.

Record index := {
  tree : list (pystr * sections);
  files : FS;
  printed : list pystr
}.

Definition add_document (filename content : pystr) (st : index) : outcome * index :=
  let '(fs, ok) := write_text filename content (files st) in
  if negb ok then
    (WriteFailed, {| tree := tree st; files := fs; printed := printed st |})
  else
    match build (split_lines content) 1 None [] with
    | inr k =>
        (NoSuchKey k, {| tree := tree st; files := fs; printed := printed st |})
    | inl secs =>
        (Indexed,
         {| tree := dict_set filename secs (tree st);
            files := fs;
            printed := printed st ++ [str "Indexed: " ++ filename] |})
    end.

(** What [get_section] returns when it finds the section. *)
Record section_view := {
  section : pystr;
  lines : list entry;
  joined : pystr
}.

Definition get_section (filename section_name : pystr) (st : index)
    : option section_view :=
  match dict_get filename (tree st) with
  | None => None
  | Some secs =>
      match dict_get section_name secs with
      | None => None
      | Some es =>
          Some {| section := section_name;
                  lines := es;
                  joined := join [10] (map text es) |}
      end
  end.

Fixpoint is_prefix (p s : pystr) : bool :=
  match p, s with
  | [], _ => true
  | x :: p', y :: s' => (x =? y) && is_prefix p' s'
  | _ :: _, [] => false
  end.

(** [p in s] for strings *)
Fixpoint contains (p s : pystr) : bool :=
  is_prefix p s
  || match s with
     | [] => false
     | _ :: s' => contains p s'
     end.

Record hit := {
  hit_doc : pystr;
  hit_section : pystr;
  hit_line : nat;
  hit_text : pystr
}.

Definition search_keyword (keyword : pystr) (st : index) : list hit :=
  flat_map (fun doc_sections =>
    flat_map (fun section_lines =>
      flat_map (fun line_info =>
        if contains (lower keyword) (lower (text line_info))
        then [{| hit_doc := fst doc_sections;
                 hit_section := fst section_lines;
                 hit_line := line line_info;
                 hit_text := text line_info |}]
        else [])
        (snd section_lines))
      (snd doc_sections))
    (tree st).

End Environment.

Arguments tree {FS} _.
Arguments files {FS} _.
Arguments printed {FS} _.

(** The lines [es] numbered from [n] on. *)
Fixpoint numbered (n : nat) (ls : list pystr) : list entry :=
  match ls with
  | [] => []
  | l :: rest => {| line := n; text := l |} :: numbered (S n) rest
  end.

(** A line of the document is good for an entry of the index. *)
Definition from_document (content : pystr) (e : entry) : Prop :=
  (1 <= line e)%nat
  /\ nth_error (split_lines content) (line e - 1) = Some (text e)
  /\ is_heading (text e) = false.

(** The section that lines are appended to is in the dictionary. *)
Definition current_known (cur : option pystr) (secs : sections) : Prop :=
  forall name, cur = Some name -> name <> [] -> dict_get name secs <> None.

(** Every entry of the sections is a line of the document, lies before
    line [n], and the entries of a section are in the order of the
    document. *)
Definition sound (content : pystr) (n : nat) (secs : sections) : Prop :=
  forall name es, dict_get name secs = Some es ->
    Forall (fun e => from_document content e /\ (line e < n)%nat) es
    /\ StronglySorted lt (map line es).

End PageIndex.

(** ** Sample data for the page index *)

(** A directory in which every write succeeds. *)
Definition always_writes (filename content : pystr) (fs : unit) : unit * bool :=
  (fs, true).

Definition empty_index : PageIndex.index unit :=
  {| PageIndex.tree := []; PageIndex.files := tt; PageIndex.printed := [] |}.

(** [# Intro], two lines, [## Usage], one line. *)
Definition guide : pystr :=
  str "# Intro" ++ [10] ++ str "first" ++ [10] ++ str "second" ++ [10]
  ++ str "## Usage" ++ [10] ++ str "Run it.".


(** The section [Usage] of the guide, as [get_section] returns it. *)
Definition usage_view : PageIndex.section_view :=
  {| PageIndex.section := str "Usage";
     PageIndex.lines := [{| PageIndex.line := 5; PageIndex.text := str "Run it." |}];
     PageIndex.joined := str "Run it." |}.

(** Lower case for the letters [A] to [Z], a sample of [str.lower]. *)
Definition ascii_lower (s : pystr) : pystr :=
  map (fun c => if (65 <=? c) && (c <=? 90) then c + 32 else c) s.

(** The hit for ["RUN"] in the guide. *)
Definition usage_hit : PageIndex.hit :=
  {| PageIndex.hit_doc := str "guide.md";
     PageIndex.hit_section := str "Usage";
     PageIndex.hit_line := 5;
     PageIndex.hit_text := str "Run it." |}.

(** * Properties *)

Section RelayFacts.

Context {py : interpreter}.

(** The interpreter has room for the one object of a record. *)
Hypothesis room : has_room.

(** ** The decoder on the encoder's output *)

Lemma run_app (st : pstate) (a b : pystr) : run st (a ++ b) = run (run st a) b.
Proof. apply fold_left_app. Qed.

Lemma pystr_eqb_eq (a b : pystr) : pystr_eqb a b = true <-> a = b.
Proof.
  revert b; induction a as [|x a IH]; intros [|y b]; simpl; split;
    try congruence; try reflexivity.
  - intros H. apply andb_true_iff in H as [Hx Hr].
    apply N.eqb_eq in Hx. apply IH in Hr. congruence.
  - intros H. injection H as -> ->. rewrite N.eqb_refl. simpl. now apply IH.
Qed.

Lemma pystr_eqb_refl (a : pystr) : pystr_eqb a a = true.
Proof. now apply pystr_eqb_eq. Qed.

Lemma pystr_eqb_neq (a b : pystr) : pystr_eqb a b = false <-> a <> b.
Proof.
  split.
  - intros H E. apply pystr_eqb_eq in E. congruence.
  - intros H. destruct (pystr_eqb a b) eqn:E; [|reflexivity].
    apply pystr_eqb_eq in E. contradiction.
Qed.

Lemma small_cases (P : N -> Prop) (n : nat) :
  (forall k, (k < n)%nat -> P (N.of_nat k)) -> forall d, d < N.of_nat n -> P d.
Proof.
  intros H d Hd. rewrite <- (N2Nat.id d). apply H. lia.
Qed.

Lemma hexval_hexdigit (d : N) : d < 16 -> hexval (hexdigit d) = Some d.
Proof.
  revert d. apply (small_cases _ 16). intros k Hk.
  do 16 (destruct k as [|k]; [reflexivity|]). lia.
Qed.

Lemma hex4_value (u : N) :
  u < 65536 ->
  (((0 * 16 + u / 4096 mod 16) * 16 + u / 256 mod 16) * 16 + u / 16 mod 16) * 16
  + u mod 16 = u.
Proof.
  intros Hu.
  pose proof (N.div_mod u 16 ltac:(lia)) as E0.
  pose proof (N.div_mod (u / 16) 16 ltac:(lia)) as E1.
  pose proof (N.div_mod (u / 256) 16 ltac:(lia)) as E2.
  replace (u / 16 / 16) with (u / 256) in E1
    by (rewrite N.Div0.div_div; reflexivity).
  replace (u / 256 / 16) with (u / 4096) in E2
    by (rewrite N.Div0.div_div; reflexivity).
  assert (u / 4096 < 16) by (apply N.Div0.div_lt_upper_bound; lia).
  rewrite (N.mod_small (u / 4096) 16) by assumption.
  lia.
Qed.

Lemma run_hex4 (b : bool) (acc : pystr) (stack : list frame) (u : N) :
  u < 65536 ->
  run (MStr b acc (SHex 4 0), stack) (hex4 u) = finish_unit b acc u stack.
Proof.
  intros Hu. unfold hex4, run. cbn [fold_left].
  do 4 (cbn [step step_string]; rewrite hexval_hexdigit by (apply N.mod_lt; lia)).
  rewrite hex4_value by assumption. reflexivity.
Qed.

Lemma run_hex4_pair (b : bool) (acc : pystr) (stack : list frame) (hi u : N) :
  u < 65536 -> is_low u = true ->
  run (MStr b acc (SHiHex hi 4 0), stack) (hex4 u)
  = (MStr b (acc ++ [join_surrogates hi u]) SPlain, stack).
Proof.
  intros Hu Hlow. unfold hex4, run. cbn [fold_left].
  do 4 (cbn [step step_string]; rewrite hexval_hexdigit by (apply N.mod_lt; lia)).
  rewrite hex4_value by assumption. rewrite Hlow. reflexivity.
Qed.

Lemma lor_shiftl_add (q b k : N) :
  b < 2 ^ k -> N.lor (N.shiftl q k) b = q * 2 ^ k + b.
Proof.
  intros Hb.
  rewrite <- N.lxor_lor, <- N.add_nocarry_lxor, N.shiftl_mul_pow2; try reflexivity.
  all: apply N.bits_inj; intros i; rewrite N.land_spec, N.bits_0;
    destruct (N.lt_ge_cases i k) as [Hi|Hi].
  all: try (rewrite N.shiftl_spec_low by assumption; reflexivity).
  all: replace b with (b mod 2 ^ k) by (apply N.mod_small; assumption);
    rewrite N.mod_pow2_bits_high by assumption; apply andb_false_r.
Qed.

Lemma surrogate_pair (c : N) :
  0x10000 <= c -> c < 0x110000 ->
  let n := c - 0x10000 in
  let s1 := N.lor 0xD800 (N.land (N.shiftr n 10) 0x3FF) in
  let s2 := N.lor 0xDC00 (N.land n 0x3FF) in
  is_high s1 = true /\ is_low s2 = true /\ s1 < 65536 /\ s2 < 65536
  /\ join_surrogates s1 s2 = c.
Proof.
  intros Hlo Hhi n s1 s2.
  assert (Hn : n < 2 ^ 20) by (unfold n; change (2 ^ 20) with 1048576; lia).
  assert (Hq : N.shiftr n 10 < 2 ^ 10).
  { rewrite N.shiftr_div_pow2. apply N.Div0.div_lt_upper_bound.
    change (2 ^ 10 * 2 ^ 10) with (2 ^ 20). assumption. }
  assert (Hr : N.land n 0x3FF < 2 ^ 10).
  { change 0x3FF with (N.ones 10). rewrite N.land_ones. apply N.mod_lt.
    discriminate. }
  assert (E1 : s1 = 0xD800 + N.shiftr n 10).
  { unfold s1. change 0x3FF with (N.ones 10). rewrite N.land_ones.
    rewrite N.mod_small by assumption.
    change 0xD800 with (N.shiftl 54 10) at 1.
    rewrite lor_shiftl_add by assumption. reflexivity. }
  assert (E2 : s2 = 0xDC00 + N.land n 0x3FF).
  { unfold s2. change 0xDC00 with (N.shiftl 55 10) at 1.
    rewrite lor_shiftl_add by assumption. reflexivity. }
  change (2 ^ 10) with 1024 in Hq, Hr.
  repeat split.
  - unfold is_high. rewrite E1. apply andb_true_iff. split; apply N.leb_le; lia.
  - unfold is_low. rewrite E2. apply andb_true_iff. split; apply N.leb_le; lia.
  - lia.
  - lia.
  - unfold join_surrogates. rewrite E1, E2.
    replace (0xD800 + N.shiftr n 10 - 0xD800) with (N.shiftr n 10) by lia.
    replace (0xDC00 + N.land n 0x3FF - 0xDC00) with (N.land n 0x3FF) by lia.
    rewrite lor_shiftl_add by (change (2 ^ 10) with 1024; assumption).
    change 0x3FF with (N.ones 10). rewrite N.land_ones, N.shiftr_div_pow2.
    pose proof (N.div_mod n (2 ^ 10) ltac:(discriminate)).
    unfold n in *. lia.
Qed.

Lemma scalar_not_high (c : N) : is_scalar c = true -> is_high c = false.
Proof.
  unfold is_scalar, is_high. intros H.
  apply orb_true_iff in H as [H|H].
  - apply N.ltb_lt in H. apply andb_false_iff. left. apply N.leb_gt. lia.
  - apply andb_true_iff in H as [H _]. apply N.ltb_lt in H.
    apply andb_false_iff. right. apply N.leb_gt. lia.
Qed.

Lemma run_escape_char (b : bool) (acc : pystr) (stack : list frame) (c : N) :
  is_scalar c = true ->
  run (MStr b acc SPlain, stack) (escape_char c)
  = (MStr b (acc ++ [c]) SPlain, stack).
Proof.
  intros Hc. unfold escape_char.
  destruct (c =? 34) eqn:E34; [known_char E34|].
  destruct (c =? 92) eqn:E92; [known_char E92|].
  destruct (c =? 10) eqn:E10; [known_char E10|].
  destruct (c =? 13) eqn:E13; [known_char E13|].
  destruct (c =? 9) eqn:E9; [known_char E9|].
  destruct (c =? 8) eqn:E8; [known_char E8|].
  destruct (c =? 12) eqn:E12; [known_char E12|].
  destruct ((32 <=? c) && (c <=? 126)) eqn:Eprint.
  - apply andb_true_iff in Eprint as [Hlo _]. apply N.leb_le in Hlo.
    unfold run. cbn [fold_left step step_string]. unfold step_plain.
    rewrite E34, E92.
    replace (c <? 32) with false by (symmetry; apply N.ltb_ge; assumption).
    reflexivity.
  - destruct (c <? 0x10000) eqn:Ebmp.
    + apply N.ltb_lt in Ebmp.
      change (92 :: ch "u" :: hex4 c) with ([92; ch "u"] ++ hex4 c).
      rewrite run_app.
      change (run (MStr b acc SPlain, stack) [92; ch "u"])
        with (MStr b acc (SHex 4 0), stack).
      rewrite run_hex4 by assumption.
      unfold finish_unit. rewrite (scalar_not_high c Hc). reflexivity.
    + apply N.ltb_ge in Ebmp.
      assert (Hmax : c < 0x110000).
      { unfold is_scalar in Hc. apply orb_true_iff in Hc as [H|H].
        - apply N.ltb_lt in H. lia.
        - apply andb_true_iff in H as [_ H]. now apply N.ltb_lt in H. }
      destruct (surrogate_pair c Ebmp Hmax) as (Hhi & Hlow & H1 & H2 & Hjoin).
      cbv zeta.
      set (s1 := N.lor 0xD800 (N.land (N.shiftr (c - 0x10000) 10) 0x3FF)) in *.
      set (s2 := N.lor 0xDC00 (N.land (c - 0x10000) 0x3FF)) in *.
      change ((92 :: ch "u" :: hex4 s1) ++ 92 :: ch "u" :: hex4 s2)
        with ([92; ch "u"] ++ hex4 s1 ++ [92; ch "u"] ++ hex4 s2).
      rewrite run_app.
      change (run (MStr b acc SPlain, stack) [92; ch "u"])
        with (MStr b acc (SHex 4 0), stack).
      rewrite run_app, run_hex4 by assumption.
      unfold finish_unit. rewrite Hhi.
      rewrite run_app.
      change (run (MStr b acc (SHi s1), stack) [92; ch "u"])
        with (MStr b acc (SHiHex s1 4 0), stack).
      rewrite run_hex4_pair by assumption.
      rewrite Hjoin. reflexivity.
Qed.

Lemma run_escape (b : bool) (stack : list frame) (s acc : pystr) :
  is_text s = true ->
  run (MStr b acc SPlain, stack) (flat_map escape_char s)
  = (MStr b (acc ++ s) SPlain, stack).
Proof.
  revert acc. induction s as [|c s IH]; intros acc Hs.
  - now rewrite app_nil_r.
  - simpl in Hs. apply andb_true_iff in Hs as [Hc Hs].
    cbn [flat_map]. rewrite run_app, run_escape_char by assumption.
    rewrite IH by assumption. now rewrite <- app_assoc.
Qed.

(** From the opening quote to the closing one. *)
Lemma run_string_body (b : bool) (stack : list frame) (s : pystr) :
  is_text s = true ->
  run (MStr b [] SPlain, stack) (flat_map escape_char s ++ [34])
  = close_string b s stack.
Proof.
  intros Hs. rewrite run_app, run_escape by assumption. reflexivity.
Qed.

Lemma run_cons (st : pstate) (c : N) (s : pystr) :
  run st (c :: s) = run (step st c) s.
Proof. reflexivity. Qed.

Lemma run_member (m : mode) (ms : list (pystr * json)) (stack : list frame)
    (kv : pystr * pystr) :
  key_mode m -> text_pair kv = true ->
  run (m, FObj ms None :: stack) (member_text kv)
  = (MAfter, FObj (ms ++ [member_value kv]) None :: stack).
Proof.
  intros Hm Hkv. apply andb_true_iff in Hkv as [Hk Hv].
  unfold member_text, encode_string.
  rewrite run_app, run_cons.
  replace (step (m, FObj ms None :: stack) 34)
    with (MStr true [] SPlain, FObj ms None :: stack)
    by (destruct Hm; subst m; reflexivity).
  rewrite run_string_body by assumption.
  cbn [close_string].
  rewrite run_app.
  change (run (MColon, FObj ms (Some (fst kv)) :: stack) (str ": "))
    with (MValue, FObj ms (Some (fst kv)) :: stack).
  rewrite run_cons.
  change (step (MValue, FObj ms (Some (fst kv)) :: stack) 34)
    with (MStr false [] SPlain, FObj ms (Some (fst kv)) :: stack).
  rewrite run_string_body by assumption. reflexivity.
Qed.

Lemma run_members (kvs : list (pystr * pystr)) :
  forall (m : mode) (ms : list (pystr * json)) (stack : list frame),
  key_mode m -> forallb text_pair kvs = true -> kvs <> [] ->
  run (m, FObj ms None :: stack) (join (str ", ") (map member_text kvs))
  = (MAfter, FObj (ms ++ map member_value kvs) None :: stack).
Proof.
  induction kvs as [|kv kvs IH]; intros m ms stack Hm Ht Hne; [congruence|].
  simpl in Ht. apply andb_true_iff in Ht as [Hkv Ht].
  destruct kvs as [|kv' kvs].
  - simpl. now apply run_member.
  - change (join (str ", ") (map member_text (kv :: kv' :: kvs)))
      with (member_text kv ++ str ", "
            ++ join (str ", ") (map member_text (kv' :: kvs))).
    rewrite run_app, run_member by assumption.
    rewrite run_app.
    change (run (MAfter, FObj (ms ++ [member_value kv]) None :: stack) (str ", "))
      with (MKey, FObj (ms ++ [member_value kv]) None :: stack).
    rewrite IH; [|left; reflexivity|assumption|discriminate].
    now rewrite <- app_assoc.
Qed.

Lemma dumps_flat (kvs : list (pystr * pystr)) :
  json_dumps (flat kvs)
  = [ch "{"] ++ join (str ", ") (map member_text kvs) ++ [ch "}"].
Proof.
  unfold flat. cbn [json_dumps]. rewrite map_map. reflexivity.
Qed.

(** What [json.dumps] writes for a dictionary of strings, [json.loads]
    reads back, with or without the line end. *)
Lemma loads_dumps_flat (kvs : list (pystr * pystr)) (tail : pystr) :
  forallb text_pair kvs = true -> forallb is_ws tail = true ->
  json_loads (json_dumps (flat kvs) ++ tail) = Return (flat kvs).
Proof.
  intros Ht Hws. unfold json_loads. rewrite dumps_flat.
  rewrite <- !app_assoc, !run_app.
  assert (Hopen : run (MValue, []) [ch "{"] = (MKeyOrEnd, [FObj [] None])).
  { unfold run. cbn [fold_left step is_ws N.eqb orb]. unfold start_value.
    cbn [N.eqb ch N_of_ascii]. unfold open_frame. cbn [length].
    now replace (0 <? nesting_limit)%nat with true
      by (symmetry; apply Nat.ltb_lt; exact room). }
  rewrite Hopen. clear Hopen.
  assert (Hobj : run (run (MKeyOrEnd, [FObj [] None])
                        (join (str ", ") (map member_text kvs))) [ch "}"]
                 = (MDone (flat kvs), [])).
  { destruct kvs as [|kv kvs]; [reflexivity|].
    rewrite run_members; [|right; reflexivity|assumption|discriminate].
    reflexivity. }
  rewrite Hobj. clear Hobj.
  induction tail as [|c tail IH]; [reflexivity|].
  simpl in Hws. apply andb_true_iff in Hws as [Hc Hws].
  unfold run. cbn [fold_left step step_post]. rewrite Hc. now apply IH.
Qed.

Lemma digits_text (w : nat) (n : N) : is_text (digits w n) = true.
Proof.
  revert n. induction w as [|w IH]; intros n; [reflexivity|].
  cbn [digits]. unfold is_text in *. rewrite forallb_app, IH.
  cbn [forallb andb].
  pose proof (N.mod_lt n 10 ltac:(discriminate)).
  unfold is_scalar.
  replace (48 + n mod 10 <? 0xD800) with true; [reflexivity|].
  symmetry. apply N.ltb_lt. lia.
Qed.

Lemma isoformat_text (d : datetime) : is_text (isoformat d) = true.
Proof.
  unfold isoformat, is_text. rewrite !forallb_app.
  destruct (microsecond d =? 0); rewrite ?forallb_app;
    repeat (rewrite (digits_text _ _ : forallb is_scalar (digits _ _) = true));
    reflexivity.
Qed.

Lemma agent_text (a : pystr) : valid_agent a = true -> is_text a = true.
Proof.
  unfold valid_agent, agents. cbn [existsb]. rewrite !orb_true_iff.
  intros [H|[H|[H|H]]]; try discriminate;
    apply pystr_eqb_eq in H; subst; reflexivity.
Qed.

(** The line written by [send_message] decodes to the record it was
    made from. *)
Lemma loads_record_line (now : datetime) (to session content : pystr) :
  is_text to = true -> is_text session = true -> is_text content = true ->
  json_loads (record_line now to session content)
  = Return (record now to session content).
Proof.
  intros Hto Hs Hc. unfold record_line.
  change (record now to session content)
    with (flat [(str "timestamp", isoformat now); (str "from", str "other");
                (str "to", to); (str "session", session);
                (str "content", content)]).
  apply loads_dumps_flat; [|reflexivity].
  cbn [forallb]. unfold text_pair. cbn [fst snd].
  rewrite isoformat_text, Hto, Hs, Hc. reflexivity.
Qed.

(** ** The exceptions of the decoder *)

Lemma no_value_kind (stack : list frame) : decoder_error (no_value stack).
Proof. unfold no_value, decoder_error. destruct (_ <=? _)%nat; auto. Qed.

Lemma bad_syntax_kind (stack : list frame) : decoder_error (bad_syntax stack).
Proof. unfold bad_syntax, decoder_error. destruct (_ <=? _)%nat; auto. Qed.

Lemma bad_int_kind (stack : list frame) : decoder_error (bad_int stack).
Proof. unfold bad_int, decoder_error. destruct (_ <=? _)%nat; auto. Qed.

Ltac sound_now :=
  first [ exact I
        | apply no_value_kind | apply bad_syntax_kind | apply bad_int_kind
        | left; reflexivity | right; right; reflexivity | assumption ].

Lemma complete_sound (v : json) (stack : list frame) : sound_state (complete v stack).
Proof. unfold complete. every_case; sound_now. Qed.

Lemma close_string_sound (b : bool) (s : pystr) (stack : list frame) :
  sound_state (close_string b s stack).
Proof.
  unfold close_string. destruct b; [|apply complete_sound].
  every_case; sound_now.
Qed.

Lemma after_value_sound (c : N) (stack : list frame) :
  sound_state (after_value c stack).
Proof.
  unfold after_value.
  repeat match goal with
         | |- sound_state (complete _ _) => apply complete_sound
         | |- context [match ?x with _ => _ end] => destruct x
         | |- _ => sound_now
         end.
Qed.

Lemma step_post_sound (st : pstate) (c : N) :
  sound_state st -> sound_state (step_post st c).
Proof.
  destruct st as [m stack]. unfold step_post. intros H.
  destruct m; try sound_now; try apply after_value_sound;
    try (destruct stack; [destruct (is_ws c)|]; sound_now).
Qed.

Lemma step_plain_sound (b : bool) (acc : pystr) (c : N) (stack : list frame) :
  sound_state (step_plain b acc c stack).
Proof.
  unfold step_plain.
  destruct (c =? 34); [apply close_string_sound|].
  destruct (c =? 92); [exact I|].
  destruct (c <? 32); sound_now.
Qed.

Lemma step_esc_sound (b : bool) (acc : pystr) (c : N) (stack : list frame) :
  sound_state (step_esc b acc c stack).
Proof. unfold step_esc. every_case; sound_now. Qed.

Lemma finish_unit_sound (b : bool) (acc : pystr) (u : N) (stack : list frame) :
  sound_state (finish_unit b acc u stack).
Proof. unfold finish_unit. every_case; sound_now. Qed.

Lemma step_string_sound (b : bool) (acc : pystr) (sm : strmode) (c : N)
    (stack : list frame) :
  sound_state (step_string b acc sm c stack).
Proof.
  unfold step_string.
  repeat match goal with
         | |- sound_state (step_plain _ _ _ _) => apply step_plain_sound
         | |- sound_state (step_esc _ _ _ _) => apply step_esc_sound
         | |- sound_state (finish_unit _ _ _ _) => apply finish_unit_sound
         | |- context [match ?x with _ => _ end] => destruct x
         | |- _ => sound_now
         end.
Qed.

Lemma start_value_sound (c : N) (stack : list frame) :
  sound_state (start_value c stack).
Proof.
  unfold start_value, open_frame. every_case; sound_now.
Qed.

Lemma step_number_sound (acc : pystr) (nm : nummode) (c : N) (stack : list frame) :
  sound_state (step_number acc nm c stack).
Proof.
  unfold step_number.
  repeat match goal with
         | |- sound_state (step_post _ _) => apply step_post_sound
         | |- sound_state (complete _ _) => apply complete_sound
         | |- context [match ?x with _ => _ end] => destruct x
         | |- _ => sound_now
         end.
Qed.

Lemma step_sound (st : pstate) (c : N) : sound_state st -> sound_state (step st c).
Proof.
  destruct st as [m stack]. intros H. unfold step.
  destruct m;
    repeat match goal with
           | |- sound_state (step_post _ _) => apply step_post_sound
           | |- sound_state (complete _ _) => apply complete_sound
           | |- sound_state (start_value _ _) => apply start_value_sound
           | |- sound_state (after_value _ _) => apply after_value_sound
           | |- sound_state (step_string _ _ _ _ _) => apply step_string_sound
           | |- sound_state (step_number _ _ _ _) => apply step_number_sound
           | |- context [match ?x with _ => _ end] => destruct x
           | |- _ => sound_now
           end.
Qed.

Lemma run_sound (s : pystr) (st : pstate) : sound_state st -> sound_state (run st s).
Proof.
  revert st. induction s as [|c s IH]; intros st H; [exact H|].
  apply IH. now apply step_sound.
Qed.

Lemma final_sound (st : pstate) (e : exn) :
  sound_state st -> final st = Raise e -> decoder_error e.
Proof.
  destruct st as [m stack]. unfold final. intros H.
  destruct m; every_case; intros E; try discriminate; injection E as <-;
    first [ exact H | apply no_value_kind | apply bad_syntax_kind
          | apply bad_int_kind | left; reflexivity ].
Qed.

(** [json.loads] raises [json.JSONDecodeError], [ValueError] or
    [RecursionError], and nothing else. *)
Lemma json_loads_raises (s : pystr) (e : exn) :
  json_loads s = Raise e -> decoder_error e.
Proof.
  unfold json_loads. apply final_sound. apply run_sound. exact I.
Qed.

(** ** Lines *)

Lemma cr_after_cons (cr : bool) (c : N) (t : pystr) :
  cr_after cr (c :: t) = cr_after (c =? 13) t.
Proof.
  unfold cr_after. cbn [rev]. destruct (rev t) as [|d r]; reflexivity.
Qed.

(** The reader works through a text piece by piece, when it keeps in
    mind whether the piece before ended with ["\r"]. *)
Lemma universal_app (x y : pystr) :
  forall cr, universal cr (x ++ y) = universal cr x ++ universal (cr_after cr x) y.
Proof.
  induction x as [|c x IH]; intros cr; [reflexivity|].
  cbn [app universal]. rewrite cr_after_cons.
  destruct (c =? 13) eqn:E13.
  - rewrite IH. reflexivity.
  - destruct (cr && (c =? 10)); rewrite IH; reflexivity.
Qed.

Lemma universal_no_cr (t : pystr) : forall cr, ~ In 13 (universal cr t).
Proof.
  induction t as [|c t IH]; intros cr; [intros []|].
  cbn [universal]. destruct (c =? 13) eqn:E13.
  - intros [H|H]; [discriminate|]. now apply (IH true).
  - destruct (cr && (c =? 10)); [apply IH|].
    intros [H|H]; [|now apply (IH false)].
    apply N.eqb_neq in E13. congruence.
Qed.

(** A text without ["\r"] is read as it is, but for a ["\n"] at its
    beginning that ends a ["\r\n"]. *)
Lemma universal_plain (t : pystr) :
  ~ In 13 t -> universal false t = t.
Proof.
  induction t as [|c t IH]; intros H; [reflexivity|].
  cbn [universal andb].
  destruct (c =? 13) eqn:E13.
  - apply N.eqb_eq in E13. subst. exfalso. apply H. now left.
  - rewrite IH; [reflexivity|]. intros Hin. apply H. now right.
Qed.

Lemma universal_plain_after (cr : bool) (c : N) (t : pystr) :
  ~ In 13 (c :: t) -> c <> 10 -> universal cr (c :: t) = c :: t.
Proof.
  intros H Hc. cbn [universal].
  destruct (c =? 13) eqn:E13.
  - apply N.eqb_eq in E13. subst. exfalso. apply H. now left.
  - replace (c =? 10) with false by (symmetry; now apply N.eqb_neq).
    rewrite andb_false_r. rewrite universal_plain; [reflexivity|].
    intros Hin. apply H. now right.
Qed.

Lemma concat_cut_lines (t : pystr) : concat (cut_lines t) = t.
Proof.
  induction t as [|c t IH]; [reflexivity|].
  cbn [cut_lines]. destruct (c =? 10).
  - cbn. now rewrite IH.
  - destruct (cut_lines t) as [|l ls]; cbn in *; now rewrite <- IH.
Qed.

Lemma concat_readlines (t : pystr) : concat (readlines t) = universal false t.
Proof. apply concat_cut_lines. Qed.

Lemma proper_cut_lines (t : pystr) : proper (cut_lines t).
Proof.
  induction t as [|c t IH]; [constructor|].
  cbn [cut_lines]. destruct (c =? 10) eqn:E.
  - apply N.eqb_eq in E. subst c. apply proper_cons; [|assumption].
    exists []. split; [reflexivity|intros []].
  - apply N.eqb_neq in E.
    destruct (cut_lines t) as [|l ls].
    + apply proper_last. split; [discriminate|].
      intros [H|[]]. congruence.
    + inversion IH as [|l' [Hne Hnl]|l' ls' (b & Hb & Hnl) Hls]; subst.
      * apply proper_last. split; [discriminate|].
        intros [H|H]; [congruence|contradiction].
      * apply proper_cons; [|assumption].
        exists (c :: b). split; [reflexivity|].
        intros [H|H]; [congruence|contradiction].
Qed.

Lemma proper_readlines (t : pystr) : proper (readlines t).
Proof. apply proper_cut_lines. Qed.

Lemma proper_filter (p : pystr -> bool) (ls : list pystr) :
  proper ls -> proper (filter p ls).
Proof.
  induction 1 as [|l Hl|l ls Hl Hls IH]; cbn [filter].
  - constructor.
  - destruct (p l); [now apply proper_last|constructor].
  - destruct (p l); [now apply proper_cons|assumption].
Qed.

(** No line that is read holds a ["\r"]. *)
Lemma readlines_no_cr (t : pystr) : Forall (fun l => ~ In 13 l) (readlines t).
Proof.
  apply Forall_forall. intros l Hl Hin.
  apply (universal_no_cr t false). rewrite <- concat_readlines.
  apply in_concat. now exists l.
Qed.

Lemma no_cr_concat (ls : list pystr) :
  Forall (fun l => ~ In 13 l) ls -> ~ In 13 (concat ls).
Proof.
  intros H Hin. apply in_concat in Hin as (l & Hl & Hin).
  rewrite Forall_forall in H. now apply (H l).
Qed.

Lemma no_cr_filter (p : pystr -> bool) (ls : list pystr) :
  Forall (fun l => ~ In 13 l) ls -> Forall (fun l => ~ In 13 l) (filter p ls).
Proof.
  intros H. apply Forall_forall. intros l Hl.
  apply filter_In in Hl as [Hl _]. rewrite Forall_forall in H. now apply H.
Qed.

Lemma cut_lines_open (l : pystr) : open_line l -> cut_lines l = [l].
Proof.
  intros [Hne Hnl]. induction l as [|c l IH]; [congruence|].
  cbn [cut_lines].
  destruct (c =? 10) eqn:E.
  - apply N.eqb_eq in E. subst. exfalso. apply Hnl. now left.
  - destruct l as [|d l]; [reflexivity|].
    rewrite IH; [reflexivity|discriminate|].
    intros H. apply Hnl. now right.
Qed.

Lemma cut_lines_terminated (b rest : pystr) :
  ~ In 10 b -> cut_lines ((b ++ [10]) ++ rest) = (b ++ [10]) :: cut_lines rest.
Proof.
  intros Hnl. induction b as [|c b IH].
  - reflexivity.
  - cbn [app cut_lines].
    destruct (c =? 10) eqn:E.
    + apply N.eqb_eq in E. subst. exfalso. apply Hnl. now left.
    + cbn [app] in IH. rewrite IH; [reflexivity|].
      intros H. apply Hnl. now right.
Qed.

Lemma cut_lines_concat (ls : list pystr) : proper ls -> cut_lines (concat ls) = ls.
Proof.
  induction 1 as [|l Hl|l ls (b & Hb & Hnl) Hls IH].
  - reflexivity.
  - cbn. rewrite app_nil_r. now apply cut_lines_open.
  - subst l. cbn [concat]. rewrite cut_lines_terminated by assumption.
    now rewrite IH.
Qed.

(** Lines without ["\r"] that are written one after the other are
    read back as they were written. *)
Lemma readlines_concat (ls : list pystr) :
  proper ls -> Forall (fun l => ~ In 13 l) ls -> readlines (concat ls) = ls.
Proof.
  intros Hp Hcr. unfold readlines.
  rewrite universal_plain by now apply no_cr_concat.
  now apply cut_lines_concat.
Qed.

Lemma closed_text_inv (t : pystr) :
  closed_text t = true -> t = [] \/ exists t', t = t' ++ [10].
Proof.
  unfold closed_text. intros H.
  destruct (rev t) as [|c r] eqn:E.
  - left. apply (f_equal (@rev N)) in E. now rewrite rev_involutive in E.
  - right. apply N.eqb_eq in H. subst c. exists (rev r).
    apply (f_equal (@rev N)) in E. now rewrite rev_involutive in E.
Qed.

(** A line end cuts the text into independent parts. *)
Lemma cut_lines_split (x y : pystr) :
  cut_lines ((x ++ [10]) ++ y) = cut_lines (x ++ [10]) ++ cut_lines y.
Proof.
  induction x as [|c x IH]; [reflexivity|].
  cbn [app cut_lines]. destruct (c =? 10).
  - cbn [app] in IH. now rewrite IH.
  - cbn [app] in IH. rewrite IH.
    destruct (cut_lines (x ++ [10])) as [|l ls] eqn:E; [|reflexivity].
    exfalso. apply (f_equal (@concat N)) in E.
    rewrite concat_cut_lines in E. now destruct x.
Qed.

Lemma cut_lines_app (t b : pystr) :
  closed_text t = true -> ~ In 10 b ->
  cut_lines (t ++ b ++ [10]) = cut_lines t ++ [b ++ [10]].
Proof.
  intros Hc Hnl.
  assert (Hb : cut_lines (b ++ [10]) = [b ++ [10]]).
  { rewrite <- (app_nil_r (b ++ [10])) at 1.
    now rewrite cut_lines_terminated. }
  destruct (closed_text_inv t Hc) as [->|[t' ->]].
  - exact Hb.
  - now rewrite cut_lines_split, Hb.
Qed.

Lemma closed_text_snoc (t b : pystr) : closed_text (t ++ b ++ [10]) = true.
Proof.
  unfold closed_text. rewrite app_assoc, rev_app_distr. reflexivity.
Qed.

Lemma rev_snoc (x : pystr) (c : N) : rev (x ++ [c]) = c :: rev x.
Proof. now rewrite rev_app_distr. Qed.

Lemma last_cases (t : pystr) : t = [] \/ exists x c, t = x ++ [c].
Proof.
  destruct (rev t) as [|c r] eqn:E.
  - left. apply (f_equal (@rev N)) in E. now rewrite rev_involutive in E.
  - right. exists (rev r), c.
    apply (f_equal (@rev N)) in E. now rewrite rev_involutive in E.
Qed.

Lemma closed_text_last (u : pystr) (d : N) : closed_text (u ++ [d]) = (d =? 10).
Proof. unfold closed_text. now rewrite rev_snoc. Qed.

Lemma ended_text_last (u : pystr) (d : N) :
  ended_text (u ++ [d]) = (d =? 10) || (d =? 13).
Proof. unfold ended_text. now rewrite rev_snoc. Qed.

Lemma cr_after_last (cr : bool) (u : pystr) (d : N) :
  cr_after cr (u ++ [d]) = (d =? 13).
Proof. unfold cr_after. now rewrite rev_snoc. Qed.

Lemma universal_last (cr : bool) (x : pystr) (c : N) :
  universal cr (x ++ [c])
  = universal cr x
    ++ (if c =? 13 then [10]
        else if cr_after cr x && (c =? 10) then [] else [c]).
Proof.
  rewrite universal_app. cbn [universal].
  destruct (c =? 13); [reflexivity|].
  destruct (cr_after cr x && (c =? 10)); reflexivity.
Qed.

(** What is read ends with ["\n"] exactly when the text ends with a
    line end of the reader. *)
Lemma closed_read (t : pystr) : closed_text (universal false t) = ended_text t.
Proof.
  destruct (last_cases t) as [->|(x & c & ->)]; [reflexivity|].
  rewrite universal_last, ended_text_last.
  destruct (c =? 13) eqn:E13.
  - rewrite closed_text_last. now rewrite orb_true_r.
  - rewrite orb_false_r. destruct (cr_after false x && (c =? 10)) eqn:E.
    + apply andb_true_iff in E as [Hcr E10]. rewrite E10, app_nil_r.
      destruct (last_cases x) as [->|(y & d & ->)]; [discriminate|].
      rewrite cr_after_last in Hcr. rewrite universal_last, Hcr.
      apply closed_text_last.
    + apply closed_text_last.
Qed.

Lemma closed_ended (t : pystr) : closed_text t = true -> ended_text t = true.
Proof.
  unfold closed_text, ended_text. destruct (rev t); [reflexivity|].
  intros ->. reflexivity.
Qed.

(** Appending a line that begins with no ["\n"] and holds no ["\r"]
    to a text that ends with a line end adds one line. *)
Lemma readlines_app (t : pystr) (c : N) (b : pystr) :
  ended_text t = true -> c <> 10 -> ~ In 13 (c :: b) -> ~ In 10 (c :: b) ->
  readlines (t ++ (c :: b) ++ [10]) = readlines t ++ [(c :: b) ++ [10]].
Proof.
  intros He Hc Hcr Hnl. unfold readlines. rewrite universal_app.
  change ((c :: b) ++ [10]) with (c :: (b ++ [10])).
  rewrite universal_plain_after; [|intros Hin|assumption].
  - change (c :: b ++ [10]) with ((c :: b) ++ [10]).
    apply cut_lines_app; [|assumption]. now rewrite closed_read.
  - change (c :: b ++ [10]) with ((c :: b) ++ [10]) in Hin.
    apply in_app_or in Hin as [Hin|[Hin|[]]]; [now apply Hcr|discriminate].
Qed.

(** ** Storage steps *)

Lemma write_all (nl : list pystr) (t : pystr) :
  fold_left do_op (map WriteStr nl) (Some t) = Some (t ++ concat nl).
Proof.
  revert t. induction nl as [|l nl IH]; intros t; cbn.
  - now rewrite app_nil_r.
  - rewrite IH. now rewrite app_assoc.
Qed.

Lemma rewrite_result (nl : list pystr) (f : store) :
  run_ops (rewrite_ops nl) f = Some (concat nl).
Proof. unfold run_ops, rewrite_ops. cbn [fold_left do_op]. apply write_all. Qed.

(** ** The loop *)

Section Receiver.

Variables a s : pystr.

(** The verdict on a line, case by case. *)
Lemma classify_unfold (line : pystr) :
  classify a s line
  = if is_blank line then Skipped
    else match json_loads line with
         | Raise JSONDecodeError => Kept
         | Raise e => Failed e
         | Return (JObj ms) =>
             if py_eq_str (lookup (str "to") ms) a then
               if py_eq_str (lookup (str "session") ms) s then
                 match lookup (str "content") ms with
                 | None => Failed (KeyError (str "content"))
                 | Some c =>
                     match lookup (str "timestamp") ms with
                     | None => Failed (KeyError (str "timestamp"))
                     | Some t => Taken {| m_from := str "the-other-agent";
                                          m_content := c;
                                          m_timestamp := t |}
                     end
                 end
               else Kept
             else Kept
         | Return _ => Failed AttributeError
         end.
Proof.
  unfold classify, scan_line.
  destruct (is_blank line); [reflexivity|].
  destruct (json_loads line) as [msg|e]; [|destruct e; reflexivity].
  destruct msg; try reflexivity.
  cbn [bind py_get].
  destruct (py_eq_str (lookup (str "to") members) a); [|reflexivity].
  destruct (py_eq_str (lookup (str "session") members) s); [|reflexivity].
  cbn [py_item].
  destruct (lookup (str "content") members); [|reflexivity].
  cbn [bind].
  destruct (lookup (str "timestamp") members); reflexivity.
Qed.

Lemma scan_line_classify (line : pystr) (ms : list message) (nl : list pystr) :
  scan_line a s line (ms, nl)
  = match classify a s line with
    | Skipped => Return (ms, nl)
    | Kept => Return (ms, nl ++ [line])
    | Taken m => Return (ms ++ [m], nl)
    | Failed e => Raise e
    end.
Proof.
  rewrite classify_unfold. unfold scan_line.
  destruct (is_blank line); [reflexivity|].
  destruct (json_loads line) as [msg|e]; [|destruct e; reflexivity].
  destruct msg; try reflexivity.
  cbn [bind py_get].
  destruct (py_eq_str (lookup (str "to") members) a); [|reflexivity].
  destruct (py_eq_str (lookup (str "session") members) s); [|reflexivity].
  cbn [py_item].
  destruct (lookup (str "content") members); [|reflexivity].
  cbn [bind].
  destruct (lookup (str "timestamp") members); reflexivity.
Qed.

(** The decoding error is caught in the loop. *)
Lemma classify_no_decode_error (line : pystr) :
  classify a s line <> Failed JSONDecodeError.
Proof. rewrite classify_unfold. every_case; discriminate. Qed.

Lemma scan_spec (lines : list pystr) :
  forall ms nl,
  scan a s lines (ms, nl)
  = match first_fail a s lines with
    | Some e => Raise e
    | None => Return (ms ++ taken a s lines, nl ++ kept a s lines)
    end.
Proof.
  unfold kept.
  induction lines as [|line rest IH]; intros ms nl.
  - cbn. now rewrite !app_nil_r.
  - cbn [scan first_fail taken filter]. rewrite scan_line_classify.
    unfold is_kept.
    destruct (classify a s line); cbn [bind]; try rewrite IH;
      try reflexivity;
      destruct (first_fail a s rest); try reflexivity;
      now rewrite <- app_assoc.
Qed.

Lemma first_fail_no_decode_error (lines : list pystr) :
  first_fail a s lines <> Some JSONDecodeError.
Proof.
  induction lines as [|line rest IH]; [discriminate|].
  cbn [first_fail].
  pose proof (classify_no_decode_error line).
  destruct (classify a s line); try assumption. congruence.
Qed.

Lemma get_new_messages_spec (limit : Z) (t : pystr) :
  valid_agent a = true ->
  get_new_messages a s limit (Some t)
  = match first_fail a s (readlines t) with
    | Some e => (Raise e, Some t)
    | None => (Return (limited limit (taken a s (readlines t))),
               Some (concat (kept a s (readlines t))))
    end.
Proof.
  intros Hv. unfold get_new_messages. rewrite Hv. cbn [negb].
  rewrite scan_spec. destruct (first_fail a s (readlines t)); [reflexivity|].
  cbn [app]. now rewrite rewrite_result.
Qed.

Lemma get_new_messages_invalid (limit : Z) (f : store) :
  valid_agent a = false -> get_new_messages a s limit f = (Return [], f).
Proof. intros Hv. unfold get_new_messages. now rewrite Hv. Qed.

Lemma get_new_messages_missing (limit : Z) :
  get_new_messages a s limit None = (Return [], None).
Proof. unfold get_new_messages. now destruct (valid_agent a). Qed.

Lemma lines_after_rewrite (t : pystr) :
  readlines (concat (kept a s (readlines t))) = kept a s (readlines t).
Proof.
  apply readlines_concat; unfold kept.
  - apply proper_filter, proper_readlines.
  - apply no_cr_filter, readlines_no_cr.
Qed.

End Receiver.
(** ** Invalid recipients *)

Lemma error_is_no_confirmation (to session : pystr) :
  send_error <> send_confirmation to session.
Proof. discriminate. Qed.

(** ** The limit *)

Lemma slice_from_suffix {A : Type} (limit : Z) (l : list A) :
  (0 < limit)%Z ->
  slice_from (- limit) l = skipn (length l - Z.to_nat limit) l.
Proof.
  intros Hl. unfold slice_from.
  replace (- limit <? 0)%Z with true by (symmetry; apply Z.ltb_lt; lia).
  f_equal. lia.
Qed.

Lemma limited_suffix (limit : Z) (ms : list message) :
  (0 < limit)%Z -> limited limit ms = skipn (length ms - Z.to_nat limit) ms.
Proof.
  intros Hl. destruct ms as [|m ms]; [reflexivity|].
  unfold limited. now apply slice_from_suffix.
Qed.

Lemma limited_all (limit : Z) (ms : list message) :
  (Z.of_nat (length ms) <= limit)%Z -> limited limit ms = ms.
Proof.
  intros Hl. destruct ms as [|m ms]; [reflexivity|].
  rewrite limited_suffix by (cbn [length] in Hl; lia).
  replace (length (m :: ms) - Z.to_nat limit)%nat with 0%nat by lia.
  reflexivity.
Qed.

Lemma taken_kept_nil (a s : pystr) (lines : list pystr) :
  taken a s (kept a s lines) = [].
Proof.
  unfold kept. induction lines as [|l ls IH]; [reflexivity|].
  cbn [filter]. unfold is_kept at 1.
  destruct (classify a s l) eqn:E; try assumption.
  cbn [taken]. now rewrite E.
Qed.

(** With a positive limit the call does what C3 says: at most [limit]
    entries, the last ones in log order, and no matching record stays. *)
Lemma receive_positive_limit (a s : pystr) (limit : Z) (t : pystr) :
  valid_agent a = true -> (0 < limit)%Z ->
  first_fail a s (readlines t) = None ->
  let pending := taken a s (readlines t) in
  exists f',
    get_new_messages a s limit (Some t)
    = (Return (skipn (length pending - Z.to_nat limit) pending), f')
    /\ (Z.of_nat (length (skipn (length pending - Z.to_nat limit) pending))
        <= limit)%Z
    /\ taken a s (lines_of f') = [].
Proof.
  intros Hv Hl Hff pending.
  exists (Some (concat (kept a s (readlines t)))).
  rewrite get_new_messages_spec, Hff by assumption.
  rewrite limited_suffix by assumption. fold pending.
  split; [reflexivity|]. split.
  - rewrite length_skipn. lia.
  - cbn [lines_of]. rewrite lines_after_rewrite. apply taken_kept_nil.
Qed.

(** ** Lines that are not consumed *)

Lemma py_eq_str_true (v : option json) (s : pystr) :
  py_eq_str v s = true -> v = Some (JStr s).
Proof.
  destruct v as [[]|]; cbn; try discriminate.
  intros H. apply pystr_eqb_eq in H. now subst.
Qed.

Lemma classify_malformed (a s line : pystr) :
  malformed line = true -> classify a s line = Kept.
Proof.
  unfold malformed. intros H. apply andb_true_iff in H as [Hb Hj].
  rewrite classify_unfold. apply negb_true_iff in Hb. rewrite Hb.
  destruct (json_loads line) as [v|e]; [discriminate|].
  destruct e; try discriminate; reflexivity.
Qed.

Lemma classify_kept_not_blank (a s line : pystr) :
  classify a s line = Kept -> is_blank line = false.
Proof.
  rewrite classify_unfold. now destruct (is_blank line).
Qed.

Lemma classify_skipped_blank (a s line : pystr) :
  classify a s line = Skipped -> is_blank line = true.
Proof.
  rewrite classify_unfold.
  destruct (is_blank line); [reflexivity|].
  destruct (json_loads line) as [[| | | | |ms]|e]; try discriminate;
    [|destruct e; discriminate].
  destruct (py_eq_str (lookup (str "to") ms) a); [|discriminate].
  destruct (py_eq_str (lookup (str "session") ms) s); [|discriminate].
  destruct (lookup (str "content") ms); [|discriminate].
  destruct (lookup (str "timestamp") ms); discriminate.
Qed.

(** A line that one receiver skips or takes is nothing to a receiver
    with another name or another session. *)
Lemma classify_elsewhere (a s a' s' line : pystr) :
  a' <> a \/ s' <> s ->
  is_kept a s line = false -> (forall e, classify a s line <> Failed e) ->
  classify a' s' line = Skipped \/ classify a' s' line = Kept.
Proof.
  intros Hne. unfold is_kept. rewrite !classify_unfold.
  destruct (is_blank line); [now left|].
  destruct (json_loads line) as [msg|e];
    [|destruct e; try discriminate; intros _ H; now destruct (H _ eq_refl)].
  destruct msg as [| | | | |ms];
    try (intros _ H; now destruct (H _ eq_refl)).
  destruct (py_eq_str (lookup (str "to") ms) a) eqn:Ea; [|discriminate].
  destruct (py_eq_str (lookup (str "session") ms) s) eqn:Es; [|discriminate].
  intros _ Hk. right.
  destruct (py_eq_str (lookup (str "to") ms) a') eqn:Ea'; [|reflexivity].
  destruct (py_eq_str (lookup (str "session") ms) s') eqn:Es'; [|reflexivity].
  exfalso.
  apply py_eq_str_true in Ea, Ea', Es, Es'.
  destruct Hne as [H|H]; apply H; congruence.
Qed.

Lemma first_fail_none (a s : pystr) (lines : list pystr) (line : pystr) :
  first_fail a s lines = None -> In line lines ->
  forall e, classify a s line <> Failed e.
Proof.
  induction lines as [|l ls IH]; intros Hff Hin e; [contradiction|].
  cbn [first_fail] in Hff. destruct Hin as [Hin|Hin].
  - subst l. destruct (classify a s line); congruence.
  - destruct (classify a s l); try discriminate; now apply IH.
Qed.

Lemma first_fail_tail (a s l : pystr) (ls : list pystr) :
  first_fail a s (l :: ls) = None -> first_fail a s ls = None.
Proof. cbn [first_fail]. now destruct (classify a s l). Qed.

Lemma elsewhere_unchanged (a s a' s' : pystr) (lines : list pystr) :
  a' <> a \/ s' <> s -> first_fail a s lines = None ->
  taken a' s' (kept a s lines) = taken a' s' lines
  /\ first_fail a' s' (kept a s lines) = first_fail a' s' lines.
Proof.
  intros Hne. unfold kept.
  induction lines as [|l ls IH]; intros Hff; [now split|].
  pose proof (first_fail_none a s (l :: ls) l Hff (or_introl eq_refl)) as Hl.
  specialize (IH (first_fail_tail a s l ls Hff)) as [IHt IHf].
  cbn [filter].
  destruct (is_kept a s l) eqn:Ek.
  - cbn [taken first_fail]. rewrite IHt, IHf. now split.
  - cbn [taken first_fail]. rewrite IHt, IHf.
    destruct (classify_elsewhere a s a' s' l Hne Ek Hl)
      as [E|E]; rewrite E; now split.
Qed.



Lemma malformed_kept (a s : pystr) (lines : list pystr) :
  filter malformed (kept a s lines) = filter malformed lines.
Proof.
  unfold kept. induction lines as [|l ls IH]; [reflexivity|].
  cbn [filter]. destruct (is_kept a s l) eqn:Ek.
  - cbn [filter]. now rewrite IH.
  - destruct (malformed l) eqn:Em; [|assumption].
    apply (classify_malformed a s) in Em. unfold is_kept in Ek.
    rewrite Em in Ek. discriminate.
Qed.

Lemma blank_kept (a s : pystr) (lines : list pystr) :
  filter is_blank (kept a s lines) = [].
Proof.
  unfold kept. induction lines as [|l ls IH]; [reflexivity|].
  cbn [filter]. destruct (is_kept a s l) eqn:Ek; [|assumption].
  cbn [filter]. unfold is_kept in Ek.
  destruct (classify a s l) eqn:E; try discriminate.
  now rewrite (classify_kept_not_blank a s l E).
Qed.

(** ** Messages for someone else *)

Lemma kept_in (a s line : pystr) (lines : list pystr) :
  In line lines -> classify a s line = Kept -> In line (kept a s lines).
Proof.
  intros Hin Hk. unfold kept. apply filter_In. split; [assumption|].
  unfold is_kept. now rewrite Hk.
Qed.

Lemma taken_in (a s line : pystr) (m : message) (lines : list pystr) :
  In line lines -> classify a s line = Taken m -> In m (taken a s lines).
Proof.
  induction lines as [|l ls IH]; intros Hin Hc; [contradiction|].
  cbn [taken]. destruct Hin as [Hin|Hin].
  - subst l. rewrite Hc. now left.
  - destruct (classify a s l); try right; now apply IH.
Qed.

(** ** The shape of a written record *)

Lemma hexdigit_printable (d : N) : d < 16 -> printable (hexdigit d) = true.
Proof.
  intros Hd. unfold printable, hexdigit.
  destruct (d <? 10) eqn:E; apply andb_true_iff; split; apply N.leb_le;
    try lia.
Qed.

Lemma hex4_printable (u : N) : forallb printable (hex4 u) = true.
Proof.
  unfold hex4. cbn [forallb].
  rewrite !hexdigit_printable by (apply N.mod_lt; discriminate).
  reflexivity.
Qed.

Lemma escape_printable (c : N) : forallb printable (escape_char c) = true.
Proof.
  unfold escape_char.
  repeat match goal with
         | |- context [if ?c =? ?k then _ else _] =>
             destruct (c =? k); [reflexivity|]
         end.
  destruct ((32 <=? c) && (c <=? 126)) eqn:Eprint.
  - cbn [forallb]. unfold printable at 1. now rewrite Eprint.
  - destruct (c <? 65536); cbv zeta; rewrite ?forallb_app; cbn [forallb];
      rewrite !hex4_printable; reflexivity.
Qed.

Lemma encode_printable (s : pystr) : forallb printable (encode_string s) = true.
Proof.
  unfold encode_string.
  change (34 :: flat_map escape_char s ++ [34])
    with ([34] ++ flat_map escape_char s ++ [34]).
  rewrite !forallb_app.
  replace (forallb printable (flat_map escape_char s)) with true; [reflexivity|].
  symmetry. induction s as [|c s IH]; [reflexivity|].
  cbn [flat_map]. now rewrite forallb_app, escape_printable.
Qed.

Lemma flat_printable (kvs : list (pystr * pystr)) :
  forallb printable (json_dumps (flat kvs)) = true.
Proof.
  rewrite dumps_flat, !forallb_app.
  replace (forallb printable (join (str ", ") (map member_text kvs))) with true;
    [reflexivity|].
  symmetry. induction kvs as [|kv kvs IH]; [reflexivity|].
  assert (Hm : forallb printable (member_text kv) = true).
  { unfold member_text. now rewrite !forallb_app, !encode_printable. }
  destruct kvs as [|kv' kvs]; [exact Hm|].
  change (join (str ", ") (map member_text (kv :: kv' :: kvs)))
    with (member_text kv ++ str ", "
          ++ join (str ", ") (map member_text (kv' :: kvs))).
  now rewrite !forallb_app, Hm, IH.
Qed.

(** ** The line written by a send *)

Lemma hexdigit_no_newline (d : N) : negb (hexdigit d =? 10) = true.
Proof.
  apply negb_true_iff, N.eqb_neq. unfold hexdigit.
  destruct (d <? 10); lia.
Qed.

Lemma escape_no_newline (c : N) : no_newline (escape_char c) = true.
Proof.
  unfold escape_char.
  repeat match goal with
         | |- context [if ?c =? ?k then _ else _] =>
             destruct (c =? k); [reflexivity|]
         end.
  destruct ((32 <=? c) && (c <=? 126)) eqn:Eprint.
  - apply andb_true_iff in Eprint as [Hlo _]. apply N.leb_le in Hlo.
    cbn. rewrite andb_true_r. apply negb_true_iff, N.eqb_neq. lia.
  - destruct (c <? 65536); cbv zeta; unfold no_newline, hex4;
      cbn [forallb app]; rewrite !hexdigit_no_newline; reflexivity.
Qed.

Lemma no_newline_app (a b : pystr) :
  no_newline (a ++ b) = no_newline a && no_newline b.
Proof. apply forallb_app. Qed.

Lemma escaped_no_newline (s : pystr) :
  no_newline (flat_map escape_char s) = true.
Proof.
  induction s as [|c s IH]; [reflexivity|].
  cbn [flat_map]. now rewrite no_newline_app, escape_no_newline.
Qed.

Lemma encode_no_newline (s : pystr) : no_newline (encode_string s) = true.
Proof.
  unfold encode_string.
  change (34 :: flat_map escape_char s ++ [34])
    with ([34] ++ flat_map escape_char s ++ [34]).
  now rewrite !no_newline_app, escaped_no_newline.
Qed.

Lemma member_no_newline (kv : pystr * pystr) : no_newline (member_text kv) = true.
Proof.
  unfold member_text. now rewrite !no_newline_app, !encode_no_newline.
Qed.

Lemma flat_no_newline (kvs : list (pystr * pystr)) :
  no_newline (json_dumps (flat kvs)) = true.
Proof.
  rewrite dumps_flat, !no_newline_app.
  replace (no_newline (join (str ", ") (map member_text kvs))) with true;
    [reflexivity|].
  symmetry. induction kvs as [|kv kvs IH]; [reflexivity|].
  destruct kvs as [|kv' kvs]; [apply member_no_newline|].
  change (join (str ", ") (map member_text (kv :: kv' :: kvs)))
    with (member_text kv ++ str ", "
          ++ join (str ", ") (map member_text (kv' :: kvs))).
  now rewrite !no_newline_app, member_no_newline, IH.
Qed.

Lemma no_newline_not_in (s : pystr) : no_newline s = true -> ~ In 10 s.
Proof.
  intros H Hin. unfold no_newline in H. rewrite forallb_forall in H.
  specialize (H 10 Hin). discriminate.
Qed.

Lemma record_no_newline (now : datetime) (to session content : pystr) :
  ~ In 10 (json_dumps (record now to session content)).
Proof.
  apply no_newline_not_in.
  change (record now to session content)
    with (flat [(str "timestamp", isoformat now); (str "from", str "other");
                (str "to", to); (str "session", session);
                (str "content", content)]).
  apply flat_no_newline.
Qed.

Lemma printable_not_in (c : N) (s : pystr) :
  printable c = false -> forallb printable s = true -> ~ In c s.
Proof.
  intros Hc H Hin. rewrite forallb_forall in H. specialize (H c Hin). congruence.
Qed.

Lemma record_printable (now : datetime) (to session content : pystr) :
  forallb printable (json_dumps (record now to session content)) = true.
Proof.
  change (record now to session content)
    with (flat [(str "timestamp", isoformat now); (str "from", str "other");
                (str "to", to); (str "session", session);
                (str "content", content)]).
  apply flat_printable.
Qed.

Lemma record_no_cr (now : datetime) (to session content : pystr) :
  ~ In 13 (record_line now to session content).
Proof.
  unfold record_line. intros Hin. apply in_app_or in Hin as [Hin|[Hin|[]]].
  - revert Hin. apply printable_not_in; [reflexivity|apply record_printable].
  - discriminate.
Qed.

(** The record begins with its brace. *)
Lemma record_shape (now : datetime) (to session content : pystr) :
  exists b, json_dumps (record now to session content) = ch "{" :: b.
Proof. unfold record. cbn [json_dumps]. now eexists. Qed.

Lemma record_line_terminated (now : datetime) (to session content : pystr) :
  terminated_line (record_line now to session content).
Proof.
  exists (json_dumps (record now to session content)).
  split; [reflexivity|apply record_no_newline].
Qed.

Lemma record_line_not_blank (now : datetime) (to session content : pystr) :
  is_blank (record_line now to session content) = false.
Proof. reflexivity. Qed.

(** A receiver takes the line when the name and the session are its
    own, and keeps it otherwise. *)
Lemma classify_record_line (a s : pystr) (now : datetime)
    (to session content : pystr) :
  is_text to = true -> is_text session = true -> is_text content = true ->
  classify a s (record_line now to session content)
  = if pystr_eqb to a && pystr_eqb session s
    then Taken (delivery now content) else Kept.
Proof.
  intros Hto Hs Hc. rewrite classify_unfold, record_line_not_blank.
  rewrite loads_record_line by assumption. unfold record.
  change (lookup (str "to") _) with (Some (JStr to)).
  change (lookup (str "session") _) with (Some (JStr session)).
  change (lookup (str "content") _) with (Some (JStr content)).
  change (lookup (str "timestamp") _) with (Some (JStr (isoformat now))).
  cbn [py_eq_str].
  destruct (pystr_eqb to a); [|reflexivity].
  destruct (pystr_eqb session s); reflexivity.
Qed.

Lemma line_message_record_line (now : datetime) (to session content : pystr) :
  is_text to = true -> is_text session = true -> is_text content = true ->
  line_message (record_line now to session content) = Some (delivery now content).
Proof.
  intros Hto Hs Hc. unfold line_message.
  rewrite loads_record_line by assumption. reflexivity.
Qed.

Lemma taken_app (a s : pystr) (l1 l2 : list pystr) :
  taken a s (l1 ++ l2) = taken a s l1 ++ taken a s l2.
Proof.
  induction l1 as [|l l1 IH]; [reflexivity|].
  cbn [app taken]. destruct (classify a s l); rewrite IH; reflexivity.
Qed.

Lemma first_fail_app (a s : pystr) (l1 l2 : list pystr) :
  first_fail a s l1 = None -> first_fail a s (l1 ++ l2) = first_fail a s l2.
Proof.
  induction l1 as [|l l1 IH]; [reflexivity|].
  cbn [app first_fail]. destruct (classify a s l); try discriminate; exact IH.
Qed.

(** The reader hands out a record as it was written, whatever stands
    before it. *)
Lemma record_read_plain (cr : bool) (now : datetime) (to session content : pystr) :
  universal cr (record_line now to session content)
  = record_line now to session content.
Proof.
  pose proof (record_no_cr now to session content) as Hcr.
  unfold record_line in *.
  destruct (record_shape now to session content) as [b Hb].
  rewrite Hb in *. cbn [app] in *.
  apply universal_plain_after; [assumption|discriminate].
Qed.

Lemma closed_log_ended (f : store) : closed_log f = true -> ended_log f = true.
Proof. destruct f as [t|]; [apply closed_ended|reflexivity]. Qed.

(** The record is a line of its own when the log ends with a line
    end of the reader. *)
Lemma record_is_read (t : pystr) (now : datetime) (to session content : pystr) :
  ended_text t = true ->
  readlines (t ++ record_line now to session content)
  = readlines t ++ [record_line now to session content].
Proof.
  intros He. unfold record_line.
  pose proof (record_no_newline now to session content) as Hnl.
  pose proof (record_no_cr now to session content) as Hcr.
  unfold record_line in Hcr.
  destruct (record_shape now to session content) as [b Hb].
  rewrite Hb in *.
  apply readlines_app; [assumption|discriminate| |assumption].
  intros Hin. apply Hcr. apply in_or_app. now left.
Qed.

Lemma send_message_lines (to content session : pystr) (now : datetime) (f : store) :
  valid_agent to = true -> ended_log f = true ->
  lines_of (snd (send_message to content session now f))
  = lines_of f ++ [record_line now to session content].
Proof.
  intros Hv Hc. unfold send_message. rewrite Hv. cbn [negb snd do_op].
  destruct f as [t|]; cbn [lines_of].
  - now apply record_is_read.
  - apply (record_is_read [] now to session content). reflexivity.
Qed.



(** ** At-most-once delivery *)

Lemma sent_line_terminated (l : pystr) : sent_line l -> terminated_line l.
Proof.
  intros (now & to & session & content & _ & _ & _ & ->).
  apply record_line_terminated.
Qed.

Lemma sent_lines_proper (ls : list pystr) : Forall sent_line ls -> proper ls.
Proof.
  induction 1 as [|l ls Hl _ IH]; [constructor|].
  apply proper_cons; [now apply sent_line_terminated|assumption].
Qed.

Lemma sent_lines_no_cr (ls : list pystr) :
  Forall sent_line ls -> Forall (fun l => ~ In 13 l) ls.
Proof.
  intros H. eapply Forall_impl; [|exact H].
  intros l (now & to & session & content & _ & _ & _ & ->).
  apply record_no_cr.
Qed.

Lemma sane_lines (ls : list pystr) :
  Forall sent_line ls -> lines_of (Some (concat ls)) = ls.
Proof.
  intros H. cbn [lines_of].
  apply readlines_concat; [now apply sent_lines_proper|now apply sent_lines_no_cr].
Qed.

Lemma sent_line_classify (a s l : pystr) :
  sent_line l ->
  exists m, line_message l = Some m
            /\ (classify a s l = Taken m \/ classify a s l = Kept).
Proof.
  intros (now & to & session & content & Hv & Hs & Hc & ->).
  exists (delivery now content).
  pose proof (agent_text to Hv) as Hto.
  split; [now apply line_message_record_line|].
  rewrite classify_record_line by assumption.
  destruct (pystr_eqb to a && pystr_eqb session s); [now left|now right].
Qed.

Lemma sent_lines_never_fail (a s : pystr) (ls : list pystr) :
  Forall sent_line ls -> first_fail a s ls = None.
Proof.
  induction 1 as [|l ls Hl _ IH]; [reflexivity|].
  cbn [first_fail].
  destruct (sent_line_classify a s l Hl) as (m & _ & [E|E]); now rewrite E.
Qed.

Lemma sent_lines_not_for_stranger (a s : pystr) (ls : list pystr) :
  valid_agent a = false -> Forall sent_line ls -> taken a s ls = [].
Proof.
  intros Hv. induction 1 as [|l ls Hl _ IH]; [reflexivity|].
  destruct Hl as (now & to & session & content & Hto & Hs & Hc & ->).
  cbn [taken].
  rewrite classify_record_line by first [assumption | apply agent_text; assumption].
  destruct (pystr_eqb to a) eqn:E; [|exact IH].
  apply pystr_eqb_eq in E. congruence.
Qed.

(** The pending messages are those that the receiver takes and those
    that stay. *)
Lemma pending_split (a s : pystr) (ls : list pystr) :
  Forall sent_line ls ->
  Permutation (pending_lines ls) (taken a s ls ++ pending_lines (kept a s ls)).
Proof.
  unfold kept.
  induction 1 as [|l ls Hl _ IH]; [constructor|].
  destruct (sent_line_classify a s l Hl) as (m & Hm & [E|E]).
  - cbn [pending_lines flat_map taken filter]. unfold is_kept.
    rewrite Hm, E. cbn [app]. now apply perm_skip.
  - cbn [pending_lines flat_map taken filter]. unfold is_kept.
    rewrite Hm, E. cbn [pending_lines flat_map]. rewrite Hm. cbn [app].
    now apply Permutation_cons_app.
Qed.

(** The limit returns the end of the list and drops its beginning. *)
Lemma limited_suffix_of (limit : Z) (ms : list message) :
  exists dropped, ms = dropped ++ limited limit ms.
Proof.
  destruct ms as [|m ms]; [now exists []|].
  unfold limited, slice_from.
  eexists. symmetry. apply firstn_skipn.
Qed.

Lemma kept_idempotent (a s : pystr) (ls : list pystr) :
  kept a s (kept a s ls) = kept a s ls.
Proof.
  unfold kept. induction ls as [|l ls IH]; [reflexivity|].
  cbn [filter]. destruct (is_kept a s l) eqn:E; [|assumption].
  cbn [filter]. now rewrite E, IH.
Qed.

Lemma sane_send (to content session : pystr) (now : datetime) (f : store) :
  sane f -> valid_agent to = true ->
  is_text session = true -> is_text content = true ->
  sane (snd (send_message to content session now f))
  /\ pending (snd (send_message to content session now f))
     = pending f ++ [delivery now content].
Proof.
  intros (ls & -> & Hls) Hv Hs Hc.
  assert (Hl : sent_line (record_line now to session content)).
  { now exists now, to, session, content. }
  assert (Hnew : snd (send_message to content session now (Some (concat ls)))
                 = Some (concat (ls ++ [record_line now to session content]))).
  { unfold send_message. rewrite Hv. cbn [negb snd do_op].
    rewrite concat_app. cbn [concat]. now rewrite app_nil_r. }
  assert (Hall : Forall sent_line (ls ++ [record_line now to session content])).
  { apply Forall_app. split; [assumption|]. now constructor. }
  rewrite Hnew. split.
  - now eexists.
  - unfold pending. rewrite !sane_lines by assumption.
    unfold pending_lines. rewrite flat_map_app. cbn [flat_map].
    rewrite line_message_record_line by first [assumption | apply agent_text; assumption].
    reflexivity.
Qed.

Lemma sane_receive (a s : pystr) (limit : Z) (f : store) :
  sane f -> valid_agent a = true ->
  exists ls,
    f = Some (concat ls) /\ Forall sent_line ls
    /\ get_new_messages a s limit f
       = (Return (limited limit (taken a s ls)), Some (concat (kept a s ls)))
    /\ Forall sent_line (kept a s ls).
Proof.
  intros (ls & -> & Hls) Hv. exists ls.
  split; [reflexivity|]. split; [assumption|]. split.
  - rewrite get_new_messages_spec by assumption.
    pose proof (sane_lines ls Hls) as Hl. cbn [lines_of] in Hl. rewrite Hl.
    now rewrite sent_lines_never_fail.
  - unfold kept. apply Forall_forall. intros l Hin.
    apply filter_In in Hin as [Hin _].
    rewrite Forall_forall in Hls. now apply Hls.
Qed.

(** A second receive finds nothing and changes nothing. *)
Lemma drained (a s : pystr) (limit limit' : Z) (f : store) :
  sane f ->
  let f1 := snd (get_new_messages a s limit f) in
  get_new_messages a s limit' f1 = (Return [], f1).
Proof.
  intros Hsane. cbv zeta.
  destruct (valid_agent a) eqn:Hv.
  - destruct (sane_receive a s limit f Hsane Hv) as (ls & -> & Hls & -> & Hk).
    cbn [snd].
    destruct (sane_receive a s limit' (Some (concat (kept a s ls)))) as
      (ls' & E & Hls' & -> & _); [now eexists|assumption|].
    injection E as E. apply (f_equal readlines) in E.
    pose proof (sane_lines _ Hk) as E1. pose proof (sane_lines _ Hls') as E2.
    cbn [lines_of] in E1, E2. rewrite E1, E2 in E.
    subst ls'. now rewrite taken_kept_nil, kept_idempotent.
  - rewrite !get_new_messages_invalid by assumption. reflexivity.
Qed.

Lemma history_invariant (cs : list call) :
  forall f0, sane f0 -> forallb text_call cs = true ->
  sane (snd (exec_all cs f0))
  /\ (forall r, In (Received r) (fst (exec_all cs f0)) -> exists msgs, r = Return msgs)
  /\ exists lost,
       Permutation (pending f0 ++ posted cs)
         (delivered (fst (exec_all cs f0)) ++ pending (snd (exec_all cs f0)) ++ lost).
Proof.
  induction cs as [|c cs IH]; intros f0 Hsane Htext.
  - cbn. split; [assumption|]. split; [intros r []|].
    exists []. now rewrite !app_nil_r.
  - cbn [forallb] in Htext. apply andb_true_iff in Htext as [Hc Htext].
    cbn [exec_all].
    destruct (exec c f0) as [r f1] eqn:Eexec.
    destruct (exec_all cs f1) as [rs f2] eqn:Eall.
    cbn [fst snd].
    destruct c as [to content session now|a s limit]; cbn [exec] in Eexec.
    + (* a send *)
      destruct (send_message to content session now f0) as [txt f1'] eqn:Esend.
      injection Eexec as <- <-.
      cbn [text_call] in Hc. apply andb_true_iff in Hc as [Hs Hc].
      destruct (valid_agent to) eqn:Hv.
      * destruct (sane_send to content session now f0 Hsane Hv Hs Hc)
          as [Hsane1 Hpend].
        rewrite Esend in Hsane1, Hpend. cbn [snd] in Hsane1, Hpend.
        specialize (IH f1' Hsane1 Htext). rewrite Eall in IH. cbn [fst snd] in IH.
        destruct IH as (Hs2 & Hret & lost & Hperm).
        split; [assumption|]. split.
        -- intros r [Hr|Hr]; [discriminate|now apply Hret].
        -- exists lost. cbn [posted flat_map]. rewrite Hv. cbn [delivered flat_map app].
           rewrite Hpend in Hperm. rewrite <- app_assoc in Hperm. exact Hperm.
      * assert (f1' = f0) as ->.
        { unfold send_message in Esend. rewrite Hv in Esend. now injection Esend. }
        specialize (IH f0 Hsane Htext). rewrite Eall in IH. cbn [fst snd] in IH.
        destruct IH as (Hs2 & Hret & lost & Hperm).
        split; [assumption|]. split.
        -- intros r [Hr|Hr]; [discriminate|now apply Hret].
        -- exists lost. cbn [posted flat_map]. rewrite Hv. exact Hperm.
    + (* a receive *)
      destruct (get_new_messages a s limit f0) as [res f1'] eqn:Eget.
      injection Eexec as <- <-.
      destruct (valid_agent a) eqn:Hv.
      * destruct (sane_receive a s limit f0 Hsane Hv) as (ls & -> & Hls & Hg & Hk).
        rewrite Hg in Eget. injection Eget as <- <-.
        assert (Hsane1 : sane (Some (concat (kept a s ls)))) by now eexists.
        specialize (IH _ Hsane1 Htext). rewrite Eall in IH. cbn [fst snd] in IH.
        destruct IH as (Hs2 & Hret & lost & Hperm).
        split; [assumption|]. split.
        -- intros r [Hr|Hr]; [|now apply Hret].
           injection Hr as <-. now eexists.
        -- destruct (limited_suffix_of limit (taken a s ls)) as [dropped Hd].
           exists (dropped ++ lost).
           cbn [posted flat_map delivered app].
           unfold pending in *. rewrite sane_lines in * by assumption.
           fold (posted cs). fold (delivered rs).
           rewrite (pending_split a s ls Hls).
           set (back := limited limit (taken a s ls)) in *.
           rewrite Hd. rewrite <- !app_assoc.
           transitivity (dropped ++ back ++ delivered rs
                         ++ pending_lines (lines_of f2) ++ lost).
           ++ do 2 apply Permutation_app_head. exact Hperm.
           ++ pose proof (Permutation_app_swap_app dropped
                            (back ++ delivered rs ++ pending_lines (lines_of f2))
                            lost) as Hswap.
              rewrite <- !app_assoc in Hswap. exact Hswap.
      * rewrite get_new_messages_invalid in Eget by assumption.
        injection Eget as <- <-.
        specialize (IH f0 Hsane Htext). rewrite Eall in IH. cbn [fst snd] in IH.
        destruct IH as (Hs2 & Hret & lost & Hperm).
        split; [assumption|]. split.
        -- intros r [Hr|Hr]; [|now apply Hret].
           injection Hr as <-. now eexists.
        -- exists lost. exact Hperm.
Qed.

Lemma sane_empty : sane empty_log.
Proof. exists []. split; [reflexivity|constructor]. Qed.
(** ** The rewrite is done in place *)

Lemma interrupted_steps (k : nat) (nl : list pystr) (f : store) :
  run_ops (firstn k (rewrite_ops nl)) f
  = match k with
    | O => f
    | S j => Some (concat (firstn j nl))
    end.
Proof.
  destruct k as [|j]; [reflexivity|].
  unfold rewrite_ops, run_ops. cbn [firstn fold_left do_op].
  rewrite firstn_map. apply write_all.
Qed.

Lemma receive_interrupted_spec (a s : pystr) (k : nat) (t : pystr) :
  valid_agent a = true -> first_fail a s (readlines t) = None ->
  receive_interrupted a s k (Some t)
  = match k with
    | O => Some t
    | S j => Some (concat (firstn j (kept a s (readlines t))))
    end.
Proof.
  intros Hv Hff. unfold receive_interrupted. rewrite Hv. cbn [negb].
  rewrite scan_spec, Hff. cbn [app]. apply interrupted_steps.
Qed.

(** ** Several processes *)

Lemma closed_after_send (to content session : pystr) (now : datetime) (f : store) :
  closed_log f = true ->
  closed_log (snd (send_message to content session now f)) = true.
Proof.
  intros Hc. unfold send_message.
  destruct (valid_agent to); cbn [negb snd do_op]; [|assumption].
  destruct f as [t|]; cbn [closed_log].
  - apply closed_text_snoc.
  - rewrite <- (app_nil_l (json_dumps _ ++ [10])). apply closed_text_snoc.
Qed.





(** ** What a receive raises *)

Lemma classify_failures (a s line : pystr) (e : exn) :
  classify a s line = Failed e ->
  e = AttributeError \/ e = KeyError (str "content")
  \/ e = KeyError (str "timestamp")
  \/ e = ValueError \/ e = RecursionError.
Proof.
  rewrite classify_unfold.
  destruct (is_blank line); [discriminate|].
  destruct (json_loads line) as [v|e'] eqn:El.
  - every_case; intros H; try discriminate; injection H as <-; auto.
  - destruct (json_loads_raises line e' El) as [-> | [-> | ->]];
      intros H; try discriminate; injection H as <-; auto.
Qed.

Lemma first_fail_failures (a s : pystr) (lines : list pystr) (e : exn) :
  first_fail a s lines = Some e ->
  e = AttributeError \/ e = KeyError (str "content")
  \/ e = KeyError (str "timestamp")
  \/ e = ValueError \/ e = RecursionError.
Proof.
  induction lines as [|l ls IH]; [discriminate|].
  cbn [first_fail]. destruct (classify a s l) eqn:E; try exact IH.
  intros H. injection H as <-. now apply (classify_failures a s l).
Qed.

Lemma offending_classify (a s line : pystr) :
  offending a s line = true <-> exists e, classify a s line = Failed e.
Proof.
  unfold offending, missing. rewrite classify_unfold.
  destruct (is_blank line); cbn [negb andb].
  - split; [discriminate|intros [e H]; discriminate].
  - destruct (json_loads line) as [[| | | | |ms]|e];
      try (split; [intros _; now eexists|reflexivity]).
    + destruct (py_eq_str (lookup (str "to") ms) a); cbn [andb];
        [|split; [discriminate|intros [e H]; discriminate]].
      destruct (py_eq_str (lookup (str "session") ms) s); cbn [andb];
        [|split; [discriminate|intros [e H]; discriminate]].
      destruct (lookup (str "content") ms); cbn [orb];
        [|split; [intros _; now eexists|reflexivity]].
      destruct (lookup (str "timestamp") ms);
        [split; [discriminate|intros [e H]; discriminate]
        |split; [intros _; now eexists|reflexivity]].
    + destruct e; try (split; [intros _; now eexists|reflexivity]).
      split; [discriminate|intros [e H]; discriminate].
Qed.

Lemma clean_first_fail (a s : pystr) (lines : list pystr) :
  clean a s lines = true <-> first_fail a s lines = None.
Proof.
  unfold clean. induction lines as [|l ls IH]; [split; reflexivity|].
  cbn [forallb first_fail]. rewrite andb_true_iff, IH, negb_true_iff.
  pose proof (offending_classify a s l) as Ho.
  destruct (classify a s l) eqn:E.
  1-3: split; [intros [_ H]; exact H|intros H; split; [|exact H]];
       destruct (offending a s l); [|reflexivity];
       destruct (proj1 Ho eq_refl) as [e He]; discriminate.
  split; [intros [H _]|discriminate].
  rewrite (proj2 Ho (ex_intro _ e eq_refl)) in H. discriminate.
Qed.

Lemma addressed_classify (a s line : pystr) :
  offending a s line = false ->
  classify a s line
  = if is_blank line then Skipped
    else if addressed a s line
         then match line_message line with
              | Some m => Taken m
              | None => Kept
              end
         else Kept.
Proof.
  unfold offending, addressed, missing, line_message. rewrite classify_unfold.
  destruct (is_blank line); cbn [negb andb]; [reflexivity|].
  destruct (json_loads line) as [[| | | | |ms]|e]; try discriminate;
    try reflexivity; [|destruct e; try discriminate; reflexivity].
  destruct (py_eq_str (lookup (str "to") ms) a); cbn [andb]; [|reflexivity].
  destruct (py_eq_str (lookup (str "session") ms) s); cbn [andb]; [|reflexivity].
  destruct (lookup (str "content") ms); cbn [orb]; [|discriminate].
  destruct (lookup (str "timestamp") ms); [reflexivity|discriminate].
Qed.

Lemma clean_partition (a s : pystr) (lines : list pystr) :
  clean a s lines = true ->
  kept a s lines = filter (stays a s) lines
  /\ taken a s lines = pending_lines (filter (addressed a s) lines).
Proof.
  unfold clean, kept, stays.
  induction lines as [|l ls IH]; [now split|].
  cbn [forallb]. intros H. apply andb_true_iff in H as [Hl H].
  apply negb_true_iff in Hl.
  destruct (IH H) as [IHk IHt]. clear IH.
  pose proof (addressed_classify a s l Hl) as Hc.
  assert (Hb : is_blank l = true -> addressed a s l = false).
  { intros Hb. unfold addressed. now rewrite Hb. }
  cbn [filter taken]. unfold is_kept at 1. rewrite Hc.
  destruct (is_blank l) eqn:Eb; cbn [negb andb].
  - rewrite (Hb eq_refl). now split.
  - destruct (addressed a s l) eqn:Ea; cbn [negb].
    + assert (Hm : exists m, line_message l = Some m).
      { unfold addressed, offending, missing, line_message in *.
        rewrite Eb in *. cbn [negb andb] in *.
        destruct (json_loads l) as [[| | | | |ms]|e]; try discriminate.
        rewrite Ea in Hl. cbn [andb] in Hl.
        destruct (lookup (str "content") ms); [|discriminate].
        destruct (lookup (str "timestamp") ms); [|discriminate].
        now eexists. }
      destruct Hm as [m Hm]. rewrite Hm.
      cbn [pending_lines flat_map]. rewrite Hm. cbn [app].
      split; [assumption|]. now f_equal.
    + split; [now f_equal|assumption].
Qed.

Lemma get_new_messages_clean (a s : pystr) (limit : Z) (t : pystr) :
  valid_agent a = true -> clean a s (readlines t) = true ->
  get_new_messages a s limit (Some t)
  = (Return (limited limit
               (pending_lines (filter (addressed a s) (readlines t)))),
     Some (concat (filter (stays a s) (readlines t)))).
Proof.
  intros Hv Hc. rewrite get_new_messages_spec by assumption.
  destruct (clean_partition a s _ Hc) as [<- <-].
  apply clean_first_fail in Hc. now rewrite Hc.
Qed.

(** ** The limit *)

Lemma limited_split (limit : Z) (ms : list message) :
  let cut := if (0 <? limit)%Z
             then (length ms - Z.to_nat limit)%nat
             else Nat.min (Z.to_nat (- limit)) (length ms) in
  limited limit ms = skipn cut ms.
Proof.
  cbv zeta. destruct ms as [|m ms].
  - now rewrite skipn_nil.
  - unfold limited, slice_from. f_equal.
    destruct (0 <? limit)%Z eqn:E.
    + apply Z.ltb_lt in E.
      replace (- limit <? 0)%Z with true by (symmetry; apply Z.ltb_lt; lia). lia.
    + apply Z.ltb_ge in E.
      replace (- limit <? 0)%Z with false by (symmetry; apply Z.ltb_ge; lia). lia.
Qed.

Lemma nothing_addressed_stays (a s : pystr) (ls : list pystr) :
  filter (addressed a s) (filter (stays a s) ls) = [].
Proof.
  induction ls as [|l ls IH]; [reflexivity|].
  cbn [filter]. unfold stays at 1.
  destruct (is_blank l); cbn [negb andb]; [exact IH|].
  destruct (addressed a s l) eqn:E; cbn [negb filter]; [exact IH|].
  now rewrite E.
Qed.

Lemma get_new_messages_cases (a s : pystr) (f : store) :
  (exists e, forall limit, get_new_messages a s limit f = (Raise e, f))
  \/ (exists all f', forall limit,
        get_new_messages a s limit f = (Return (limited limit all), f')).
Proof.
  destruct (valid_agent a) eqn:Hv.
  - destruct f as [t|].
    + destruct (first_fail a s (readlines t)) as [e|] eqn:Hff.
      * left. exists e. intros limit.
        now rewrite get_new_messages_spec, Hff.
      * right. eexists _, _. intros limit.
        rewrite get_new_messages_spec, Hff by assumption. reflexivity.
    + right. exists [], None. intros limit. apply get_new_messages_missing.
  - right. exists [], f. intros limit. now apply get_new_messages_invalid.
Qed.

(** ** One receive after another *)

Lemma first_fail_kept (a s : pystr) (ls : list pystr) :
  first_fail a s (kept a s ls) = None.
Proof.
  unfold kept. induction ls as [|l ls IH]; [reflexivity|].
  cbn [filter]. destruct (is_kept a s l) eqn:E; [|assumption].
  cbn [first_fail]. unfold is_kept in E.
  destruct (classify a s l); try discriminate. assumption.
Qed.

Lemma drained_again (a s : pystr) (limit limit' : Z) (f : store)
    (msgs : list message) :
  fst (get_new_messages a s limit f) = Return msgs ->
  get_new_messages a s limit' (snd (get_new_messages a s limit f))
  = (Return [], snd (get_new_messages a s limit f)).
Proof.
  destruct (valid_agent a) eqn:Hv.
  - destruct f as [t|].
    + rewrite get_new_messages_spec by assumption.
      destruct (first_fail a s (readlines t)); [discriminate|].
      intros _. cbn [snd].
      rewrite get_new_messages_spec, lines_after_rewrite by assumption.
      now rewrite first_fail_kept, taken_kept_nil, kept_idempotent.
    + intros _. now rewrite !get_new_messages_missing.
  - intros _. now rewrite !get_new_messages_invalid.
Qed.

Lemma kept_comm (a s a' s' : pystr) (ls : list pystr) :
  kept a' s' (kept a s ls) = kept a s (kept a' s' ls).
Proof.
  unfold kept. induction ls as [|l ls IH]; [reflexivity|].
  cbn [filter].
  destruct (is_kept a s l) eqn:E, (is_kept a' s' l) eqn:E'; cbn [filter];
    rewrite ?E, ?E', IH; reflexivity.
Qed.

Lemma receive_after_other (a s a' s' : pystr) (limit limit' : Z) (f : store) :
  a' <> a \/ s' <> s ->
  fst (get_new_messages a' s' limit' (snd (get_new_messages a s limit f)))
  = fst (get_new_messages a' s' limit' f).
Proof.
  intros Hne. destruct (valid_agent a) eqn:Hv;
    [|now rewrite (get_new_messages_invalid a s)].
  destruct f as [t|]; [|now rewrite (get_new_messages_missing a s)].
  rewrite (get_new_messages_spec a s) by assumption.
  destruct (first_fail a s (readlines t)) eqn:Hff; [reflexivity|]. cbn [snd].
  destruct (valid_agent a') eqn:Hv'; [|now rewrite !get_new_messages_invalid].
  rewrite !get_new_messages_spec, lines_after_rewrite by assumption.
  destruct (elsewhere_unchanged a s a' s' (readlines t) Hne Hff) as [-> ->].
  now destruct (first_fail a' s' (readlines t)).
Qed.

(** ** Sends and receives together *)

Lemma first_fail_app_some (a s : pystr) (l1 l2 : list pystr) (e : exn) :
  first_fail a s l1 = Some e -> first_fail a s (l1 ++ l2) = Some e.
Proof.
  induction l1 as [|l l1 IH]; [discriminate|].
  cbn [app first_fail]. destruct (classify a s l); try exact IH. trivial.
Qed.

Lemma kept_app (a s : pystr) (l1 l2 : list pystr) :
  kept a s (l1 ++ l2) = kept a s l1 ++ kept a s l2.
Proof. apply filter_app. Qed.

Lemma record_line_for_other (a s : pystr) (now : datetime)
    (to session content : pystr) :
  valid_agent to = true -> is_text session = true -> is_text content = true ->
  a <> to \/ s <> session ->
  classify a s (record_line now to session content) = Kept.
Proof.
  intros Hv Hs Hc Hne.
  rewrite classify_record_line by first [assumption | apply agent_text; assumption].
  destruct (pystr_eqb to a) eqn:Ea; [|reflexivity].
  destruct (pystr_eqb session s) eqn:Es; [|reflexivity].
  apply pystr_eqb_eq in Ea, Es. destruct Hne; congruence.
Qed.

Lemma send_message_log (to content session : pystr) (now : datetime) (f : store) :
  valid_agent to = true ->
  snd (send_message to content session now f)
  = Some (text_of f ++ record_line now to session content).
Proof.
  intros Hv. unfold send_message. rewrite Hv. cbn [negb snd do_op].
  now destruct f.
Qed.

(** ** The log ends with a line end *)

Lemma closed_text_tail (x y : pystr) :
  y <> [] -> closed_text (x ++ y) = closed_text y.
Proof.
  intros Hy. unfold closed_text. rewrite rev_app_distr.
  destruct (rev y) as [|c r] eqn:E; [|reflexivity].
  apply (f_equal (@rev N)) in E. rewrite rev_involutive in E. contradiction.
Qed.

Lemma terminated_closed (ls : list pystr) :
  Forall terminated_line ls -> closed_text (concat ls) = true.
Proof.
  induction ls as [|l ls IH]; intros H; [reflexivity|].
  inversion H as [|? ? (b & -> & _) Hrest]; subst.
  cbn [concat]. destruct ls as [|l' ls].
  - cbn [concat]. rewrite app_nil_r. apply (closed_text_snoc [] b).
  - rewrite closed_text_tail; [now apply IH|].
    inversion Hrest as [|? ? (b' & -> & _) _]. cbn [concat]. now destruct b'.
Qed.

Lemma proper_shape (ls : list pystr) :
  proper ls ->
  Forall terminated_line ls
  \/ exists ls' l, ls = ls' ++ [l] /\ Forall terminated_line ls' /\ open_line l.
Proof.
  induction 1 as [|l Hl|l ls Hl Hls IH].
  - left. constructor.
  - right. now exists [], l.
  - destruct IH as [IH|(ls' & l' & -> & Hall & Ho)].
    + left. now constructor.
    + right. exists (l :: ls'), l'.
      split; [reflexivity|]. split; [now constructor|assumption].
Qed.

Lemma open_not_closed (x l : pystr) : open_line l -> closed_text (x ++ l) = false.
Proof.
  intros [Hne Hnl]. rewrite closed_text_tail by assumption.
  unfold closed_text. destruct (rev l) as [|c r] eqn:E.
  - apply (f_equal (@rev N)) in E. rewrite rev_involutive in E. contradiction.
  - apply N.eqb_neq. intros ->. apply Hnl. apply in_rev. rewrite E. now left.
Qed.

(** On a text that ends with a line end every line that is read
    ends with ["\n"]. *)
Lemma ended_lines (t : pystr) :
  ended_text t = true -> Forall terminated_line (readlines t).
Proof.
  intros Hc. rewrite <- closed_read in Hc.
  destruct (proper_shape _ (proper_readlines t)) as [H|(ls & l & E & _ & Ho)];
    [assumption|].
  rewrite <- (concat_readlines t), E, concat_app in Hc. cbn [concat] in Hc.
  rewrite app_nil_r, open_not_closed in Hc by assumption. discriminate.
Qed.

Lemma closed_lines (t : pystr) :
  closed_text t = true -> Forall terminated_line (readlines t).
Proof. intros Hc. now apply ended_lines, closed_ended. Qed.

(** ** First in, first out *)

Lemma sane_closed (f : store) : sane f -> closed_log f = true.
Proof.
  intros (ls & -> & Hls). cbn [closed_log]. apply terminated_closed.
  apply Forall_forall. intros l Hin. apply sent_line_terminated.
  rewrite Forall_forall in Hls. now apply Hls.
Qed.

Lemma undisturbed_inbox (a s : pystr) (c : call) (f : store) :
  sane f -> text_call c = true -> undisturbed a s [c] = true ->
  sane (snd (exec c f))
  /\ taken a s (lines_of (snd (exec c f)))
     = taken a s (lines_of f) ++ inbox a s [c].
Proof.
  intros Hsane Ht Hu. destruct c as [to content session now|a' s' limit].
  - cbn [exec text_call] in *. apply andb_true_iff in Ht as [Hs Hc].
    destruct (send_message to content session now f) as [txt f'] eqn:E.
    cbn [snd]. replace f' with (snd (send_message to content session now f))
      by now rewrite E.
    cbn [inbox flat_map]. rewrite app_nil_r.
    destruct (valid_agent to) eqn:Hv.
    + destruct (sane_send to content session now f Hsane Hv Hs Hc) as [Hs1 _].
      split; [assumption|].
      rewrite send_message_lines
        by first [assumption | apply closed_log_ended, sane_closed; assumption].
      rewrite taken_app. f_equal. cbn [taken andb].
      rewrite classify_record_line by first [assumption | apply agent_text; assumption].
      now destruct (pystr_eqb to a && pystr_eqb session s).
    + unfold send_message. rewrite Hv. cbn [negb snd andb].
      rewrite app_nil_r. now split.
  - cbn [exec] in *.
    destruct (get_new_messages a' s' limit f) as [r f'] eqn:E. cbn [snd].
    cbn [inbox flat_map]. rewrite app_nil_r.
    cbn [undisturbed forallb] in Hu. rewrite andb_true_r in Hu.
    apply negb_true_iff in Hu.
    assert (Hne : a <> a' \/ s <> s').
    { destruct (pystr_eqb a' a) eqn:Ea; [|left; intros ->;
        rewrite pystr_eqb_refl in Ea; discriminate].
      destruct (pystr_eqb s' s) eqn:Es; [discriminate|].
      right. intros ->. rewrite pystr_eqb_refl in Es. discriminate. }
    destruct (valid_agent a') eqn:Hv.
    + destruct (sane_receive a' s' limit f Hsane Hv) as (ls & -> & Hls & Hg & Hk).
      rewrite Hg in E. injection E as _ <-.
      split; [now eexists|].
      rewrite !sane_lines by assumption.
      apply elsewhere_unchanged; [assumption|].
      now apply sent_lines_never_fail.
    + rewrite get_new_messages_invalid in E by assumption.
      injection E as _ <-. now split.
Qed.

Lemma inbox_history (a s : pystr) (cs : list call) :
  forall f, sane f -> forallb text_call cs = true -> undisturbed a s cs = true ->
  sane (snd (exec_all cs f))
  /\ taken a s (lines_of (snd (exec_all cs f)))
     = taken a s (lines_of f) ++ inbox a s cs.
Proof.
  induction cs as [|c cs IH]; intros f Hsane Ht Hu.
  - cbn. now rewrite app_nil_r.
  - cbn [forallb] in Ht. apply andb_true_iff in Ht as [Hc Ht].
    unfold undisturbed in Hu. cbn [forallb] in Hu.
    apply andb_true_iff in Hu as [Hu1 Hu].
    destruct (undisturbed_inbox a s c f Hsane Hc) as [Hs1 Ht1].
    { unfold undisturbed. cbn [forallb]. now rewrite Hu1. }
    cbn [exec_all].
    destruct (exec c f) as [r f1] eqn:E. cbn [snd] in Hs1, Ht1.
    destruct (exec_all cs f1) as [rs f2] eqn:E2. cbn [snd].
    destruct (IH f1 Hs1 Ht Hu) as [Hs2 Ht2].
    rewrite E2 in Hs2, Ht2. cbn [snd] in Hs2, Ht2.
    split; [assumption|].
    rewrite Ht2, Ht1, <- app_assoc. f_equal.
    unfold inbox. cbn [flat_map]. now rewrite app_nil_r.
Qed.

(** ** Two receives at once *)

Lemma two_parts (a s : pystr) (limit : Z) (f : store) :
  write_part limit (read_part a s f) f = get_new_messages a s limit f.
Proof.
  unfold write_part, read_part, get_new_messages.
  destruct (valid_agent a); cbn [negb]; [|reflexivity].
  destruct f as [t|]; [|reflexivity].
  destruct (scan a s (readlines t) ([], [])) as [[ms nl]|e]; reflexivity.
Qed.


End RelayFacts.

(** * The specified behaviour of the relay

    The theorems hold for every interpreter; the worked cases below
    them run on [cpython]. *)

(** ** Invalid recipients *)

(** C4.  Sending to a recipient outside the valid set returns the
    error text, which is no confirmation, and leaves the log as it
    was: no record is appended. *)
Theorem send_invalid_recipient (to content session : pystr) (now : datetime)
    (f : store) :
  valid_agent to = false ->
  send_message to content session now f = (send_error, f)
  /\ (forall to' session', send_error <> send_confirmation to' session').
Proof.
  intros Hv. split.
  - unfold send_message. now rewrite Hv.
  - intros to' session'. apply error_is_no_confirmation.
Qed.

Lemma send_invalid_recipient_witness :
  send_message (str "bob") (str "hi") default noon empty_log
  = (send_error, empty_log)
  /\ (forall to' session', send_error <> send_confirmation to' session').
Proof. apply send_invalid_recipient. reflexivity. Defined.

(** C9, as the code has it.  For a recipient outside the valid set,
    [send_message] returns the error text and [get_new_messages]
    returns the empty list, both leaving the log as it was. *)
Theorem invalid_recipient_results {py : interpreter} (r content session : pystr)
    (now : datetime) (limit : Z) (f : store) :
  valid_agent r = false ->
  send_message r content session now f = (send_error, f)
  /\ get_new_messages r session limit f = (Return [], f).
Proof.
  intros Hv. split.
  - unfold send_message. now rewrite Hv.
  - now apply get_new_messages_invalid.
Qed.

Lemma invalid_recipient_results_witness :
  send_message (str "bob") (str "hi") default noon empty_log
  = (send_error, empty_log)
  /\ get_new_messages (str "bob") default 15 empty_log = (Return [], empty_log).
Proof. apply invalid_recipient_results. reflexivity. Defined.

(** C9 fails on receive: an unknown agent gets the same empty list as
    a valid agent that has nothing pending, although a message for
    another agent is in the log. *)
Lemma receive_invalid_is_silent :
  let f := snd (send_message kilo (str "hi") default noon empty_log) in
  valid_agent (str "bob") = false
  /\ get_new_messages (str "bob") default 15 f = (Return [], f)
  /\ fst (get_new_messages trae default 15 f) = Return [].
Proof. vm_compute. repeat split. Qed.

(** ** Exceptions that leave the tool *)

(** C8.  A line that decodes to a record addressed to the caller but
    without a ["content"] field makes [get_new_messages] raise
    [KeyError]; a line that decodes to a value that is no dictionary
    makes it raise [AttributeError].  Neither is caught, and the log is
    not rewritten. *)
Theorem receive_raises_on_incomplete_record :
  let f := Some (jtext "{'to': 'trae', 'session': 'default'}" ++ [10]) in
  let g := Some (jtext "42" ++ [10]) in
  get_new_messages trae default 15 f = (Raise (KeyError (str "content")), f)
  /\ get_new_messages trae default 15 g = (Raise AttributeError, g).
Proof. vm_compute. split; reflexivity. Qed.

(** ** The limit *)

(** C3.  With [limit = 0] the slice [messages[-0:]] is the whole list:
    both pending messages are returned, where at most zero were asked
    for. *)
Theorem receive_limit_zero_returns_all :
  let f1 := snd (send_message trae (str "one") default noon empty_log) in
  let f2 := snd (send_message trae (str "two") default later f1) in
  fst (get_new_messages trae default 0 f2)
  = Return [delivery noon (str "one"); delivery later (str "two")].
Proof. vm_compute. reflexivity. Qed.

(** ** Lines that are not consumed *)

(** C5, as the code has it.  The lines are those that the reader
    hands out: cut at ["\n"], ["\r"] and ["\r\n"], each of which is
    read as ["\n"], so that they are the very text of the log when it
    holds no ["\r"].  A line that is not blank and on which
    [json.loads] raises [json.JSONDecodeError] is written back as it
    was read, in its place among such lines, and the decoding error
    never reaches the caller; blank lines are passed over on read and
    are not written back.  When the receive returns, the log is the
    lines that are neither blank nor addressed to the caller, one
    after the other, and the malformed lines are among them. *)
Theorem malformed_lines_survive {py : interpreter} (a s : pystr) (limit : Z)
    (f : store) :
  valid_agent a = true ->
  let r := fst (get_new_messages a s limit f) in
  let f' := snd (get_new_messages a s limit f) in
  filter malformed (lines_of f') = filter malformed (lines_of f)
  /\ r <> Raise JSONDecodeError
  /\ (forall msgs, r = Return msgs -> filter is_blank (lines_of f') = [])
  /\ (~ In 13 (text_of f) -> concat (lines_of f) = text_of f)
  /\ (forall msgs, r = Return msgs ->
      text_of f' = concat (filter (stays a s) (lines_of f)))
  /\ (forall line, malformed line = true -> stays a s line = true).
Proof.
  intros Hv.
  assert (Hstays : forall line, malformed line = true -> stays a s line = true).
  { intros line. unfold malformed, stays, addressed.
    destruct (is_blank line); cbn [negb andb]; [discriminate|].
    now destruct (json_loads line) as [[]|[]]. }
  assert (Hverbatim : ~ In 13 (text_of f) -> concat (lines_of f) = text_of f).
  { intros Hcr. destruct f as [t|]; [|reflexivity].
    cbn [lines_of text_of] in *. rewrite concat_readlines.
    now apply universal_plain. }
  destruct f as [t|].
  - cbv zeta. rewrite get_new_messages_spec by assumption.
    destruct (first_fail a s (readlines t)) as [e|] eqn:Hff; cbn [fst snd].
    + split; [reflexivity|].
      split; [|split; [discriminate|split; [assumption|split; [discriminate|assumption]]]].
      intros H. injection H as ->.
      now apply (first_fail_no_decode_error a s (readlines t)).
    + cbn [lines_of]. rewrite lines_after_rewrite.
      split; [apply malformed_kept|]. split; [discriminate|].
      split; [intros _ _; apply blank_kept|]. split; [assumption|].
      split; [|assumption]. intros _ _. cbn [text_of lines_of].
      apply clean_first_fail in Hff.
      destruct (clean_partition a s _ Hff) as [E _]. now rewrite E.
  - cbv zeta. rewrite get_new_messages_missing. cbn [fst snd lines_of filter].
    split; [reflexivity|]. split; [discriminate|]. split; [reflexivity|].
    split; [assumption|]. split; [reflexivity|assumption].
Qed.

Lemma malformed_lines_survive_witness :
  let f := Some (str "not json" ++ [10] ++ record_line noon trae default (str "hi")) in
  let r := fst (get_new_messages trae default 15 f) in
  let f' := snd (get_new_messages trae default 15 f) in
  filter malformed (lines_of f') = filter malformed (lines_of f)
  /\ r <> Raise JSONDecodeError
  /\ (forall msgs, r = Return msgs -> filter is_blank (lines_of f') = [])
  /\ (~ In 13 (text_of f) -> concat (lines_of f) = text_of f)
  /\ (forall msgs, r = Return msgs ->
      text_of f' = concat (filter (stays trae default) (lines_of f)))
  /\ (forall line, malformed line = true -> stays trae default line = true).
Proof. apply malformed_lines_survive. reflexivity. Defined.

(** C5 fails on blank lines: the blank line between two foreign lines
    is gone after a receive.  It fails on a ["\r"] as well: a foreign
    line that holds one is written back as two lines. *)
Lemma blank_line_is_dropped :
  (let f := Some (str "not json" ++ [10] ++ [10] ++ str "nor this" ++ [10]) in
   lines_of f = [str "not json" ++ [10]; [10]; str "nor this" ++ [10]]
   /\ is_blank [10] = true
   /\ get_new_messages trae default 15 f
      = (Return [], Some (str "not json" ++ [10] ++ str "nor this" ++ [10])))
  /\
  (let g := Some (str "not" ++ [13] ++ str "json" ++ [13; 10]) in
   get_new_messages trae default 15 g
   = (Return [], Some (str "not" ++ [10] ++ str "json" ++ [10]))).
Proof. vm_compute. repeat split. Qed.

(** A line that does not decode is not always tolerated: with more
    arrays open than the interpreter has room for the decoder raises
    [RecursionError], on an integer of 4301 digits [ValueError], and
    neither is caught. *)
Example overlong_lines_raise :
  let deep := Some (repeat 91 1000 ++ [10]) in
  let long := Some (repeat 49 4301 ++ [10]) in
  get_new_messages trae default 15 deep = (Raise RecursionError, deep)
  /\ get_new_messages trae default 15 long = (Raise ValueError, long).
Proof. vm_compute. split; reflexivity. Qed.

(** ** Messages for someone else *)




(** ** A send followed by a receive *)




(** ** At-most-once delivery *)

(** C2.  Along every history of sends and receives from the empty log,
    every receive returns; the messages returned, the messages still in
    the log and some lost ones are together exactly the messages sent,
    each counted as often as it was sent, so a message that was
    returned is no longer in the log and is not returned again; and a
    receive that at once follows another for the same recipient and
    session returns the empty list. *)
Theorem at_most_once_delivery {py : interpreter} (cs : list call) :
  has_room ->
  forallb text_call cs = true ->
  let replies := fst (exec_all cs empty_log) in
  let f := snd (exec_all cs empty_log) in
  (forall r, In (Received r) replies -> exists msgs, r = Return msgs)
  /\ (exists lost,
        Permutation (posted cs) (delivered replies ++ pending f ++ lost))
  /\ (forall a s limit limit',
        let f1 := snd (get_new_messages a s limit f) in
        taken a s (lines_of f1) = []
        /\ get_new_messages a s limit' f1 = (Return [], f1)).
Proof.
  intros room Htext replies f.
  destruct (history_invariant room cs empty_log sane_empty Htext)
    as (Hs & Hret & Hperm).
  fold replies f in Hs, Hret, Hperm.
  split; [assumption|]. split; [assumption|].
  intros a s limit limit'. cbv zeta. split.
  - pose proof (drained room a s limit limit' f Hs) as Hd. cbv zeta in Hd.
    set (f1 := snd (get_new_messages a s limit f)) in *.
    destruct (valid_agent a) eqn:Hv.
    + destruct (sane_receive room a s limit f Hs Hv) as (ls & _ & Hls & Hg & Hk).
      unfold f1. rewrite Hg. cbn [snd].
      rewrite sane_lines by assumption. apply taken_kept_nil.
    + unfold f1. rewrite get_new_messages_invalid by assumption. cbn [snd].
      destruct Hs as (ls & -> & Hls). rewrite sane_lines by assumption.
      now apply sent_lines_not_for_stranger.
  - now apply drained.
Qed.

Lemma at_most_once_delivery_witness :
  let cs := [Send trae (str "one") default noon;
             Send kilo (str "two") default noon;
             Send trae (str "three") default later;
             Receive trae default 1;
             Receive trae default 15;
             Receive kilo default 15] in
  let replies := fst (exec_all cs empty_log) in
  let f := snd (exec_all cs empty_log) in
  (forall r, In (Received r) replies -> exists msgs, r = Return msgs)
  /\ (exists lost,
        Permutation (posted cs) (delivered replies ++ pending f ++ lost))
  /\ (forall a s limit limit',
        let f1 := snd (get_new_messages a s limit f) in
        taken a s (lines_of f1) = []
        /\ get_new_messages a s limit' f1 = (Return [], f1)).
Proof.
  apply (at_most_once_delivery
           [Send trae (str "one") default noon;
            Send kilo (str "two") default noon;
            Send trae (str "three") default later;
            Receive trae default 1;
            Receive trae default 15;
            Receive kilo default 15]).
  - unfold has_room. cbn. lia.
  - reflexivity.
Defined.

(** In that history the first receive returns the newer of the two
    messages for trae and drops the older one; the second receive
    returns nothing. *)
Example drained_history :
  fst (exec_all [Send trae (str "one") default noon;
                 Send kilo (str "two") default noon;
                 Send trae (str "three") default later;
                 Receive trae default 1;
                 Receive trae default 15;
                 Receive kilo default 15] empty_log)
  = [Sent (send_confirmation trae default);
     Sent (send_confirmation kilo default);
     Sent (send_confirmation trae default);
     Received (Return [delivery later (str "three")]);
     Received (Return []);
     Received (Return [delivery noon (str "two")])].
Proof. vm_compute. reflexivity. Qed.

(** ** The rewrite is done in place *)

(** C7, as the code has it.  The rewrite opens the log itself for
    writing, which empties it, and then writes the lines it keeps one
    after the other.  Stopped before the first step the log is the old
    one; stopped after [j + 1] steps it holds the first [j] kept lines
    and nothing else; only when every line is written is it the log
    that the finished call leaves. *)
Theorem rewrite_is_in_place {py : interpreter} (a s : pystr) (limit : Z) (k : nat)
    (t : pystr) :
  valid_agent a = true -> first_fail a s (readlines t) = None ->
  let new_lines := kept a s (readlines t) in
  receive_interrupted a s k (Some t)
  = match k with
    | O => Some t
    | S j => Some (concat (firstn j new_lines))
    end
  /\ ((length new_lines < k)%nat ->
      receive_interrupted a s k (Some t)
      = snd (get_new_messages a s limit (Some t))).
Proof.
  intros Hv Hff new_lines. split.
  - now apply receive_interrupted_spec.
  - intros Hk. rewrite receive_interrupted_spec by assumption.
    rewrite get_new_messages_spec, Hff by assumption. cbn [snd].
    destruct k as [|j]; [lia|].
    fold new_lines. rewrite firstn_all2 by lia. reflexivity.
Qed.

(** Two lines are kept: after three steps the rewrite is done. *)
Lemma rewrite_is_in_place_witness :
  let t := record_line noon trae default (str "a")
           ++ record_line noon kilo default (str "b")
           ++ record_line later grok default (str "c") in
  let new_lines := kept trae default (readlines t) in
  receive_interrupted trae default 3 (Some t)
  = Some (concat (firstn 2 new_lines))
  /\ receive_interrupted trae default 3 (Some t)
     = snd (get_new_messages trae default 15 (Some t)).
Proof.
  destruct (rewrite_is_in_place trae default 15 3
              (record_line noon trae default (str "a")
               ++ record_line noon kilo default (str "b")
               ++ record_line later grok default (str "c")))
    as [Hsteps Hdone]; [reflexivity|reflexivity|].
  split; [exact Hsteps|]. apply Hdone. vm_compute. lia.
Defined.

(** C7 fails: stopped right after the file is opened for writing, the
    log is empty, which is neither the log before the call nor the log
    that the finished call leaves; one step later it holds one of the
    two lines to keep. *)
Lemma interrupted_rewrite_truncates :
  let f := Some (record_line noon trae default (str "a")
                 ++ record_line noon kilo default (str "b")
                 ++ record_line later grok default (str "c")) in
  let done := snd (get_new_messages trae default 15 f) in
  done = Some (record_line noon kilo default (str "b")
               ++ record_line later grok default (str "c"))
  /\ receive_interrupted trae default 1 f = Some []
  /\ Some [] <> f /\ Some [] <> done
  /\ receive_interrupted trae default 2 f
     = Some (record_line noon kilo default (str "b"))
  /\ receive_interrupted trae default 2 f <> f
  /\ receive_interrupted trae default 2 f <> done.
Proof. vm_compute. repeat split; discriminate. Qed.

(** ** Several processes *)




(** * Further properties of the relay *)

(** ** The shape of a written record *)

(** X1.  A send to a valid recipient leaves the text of the log in
    place and puts the record after it: the dictionary of the message
    as [json.dumps] writes it, which is printable ASCII, and one line
    end.  The reader hands the record out as one line, and as a line
    of its own when the log ended with a line end, whatever characters
    the session and the content hold. *)
Theorem send_appends_one_ascii_line (to content session : pystr) (now : datetime)
    (f : store) :
  valid_agent to = true ->
  let written := json_dumps (record now to session content) in
  send_message to content session now f
  = (send_confirmation to session, Some (text_of f ++ written ++ [10]))
  /\ forallb printable written = true
  /\ readlines (written ++ [10]) = [written ++ [10]]
  /\ (ended_log f = true ->
      lines_of (snd (send_message to content session now f))
      = lines_of f ++ [written ++ [10]]).
Proof.
  intros Hv written. split; [|split; [|split]].
  - unfold send_message. rewrite Hv. cbn [negb do_op]. now destruct f.
  - apply record_printable.
  - apply (record_is_read [] now to session content). reflexivity.
  - intros He. now apply send_message_lines.
Qed.

Lemma send_appends_one_ascii_line_witness :
  let f := Some (str "not json" ++ [13]) in
  let written := json_dumps (record noon trae default [104; 105; 10; 13; 233; 128512]) in
  send_message trae [104; 105; 10; 13; 233; 128512] default noon f
  = (send_confirmation trae default, Some (text_of f ++ written ++ [10]))
  /\ forallb printable written = true
  /\ readlines (written ++ [10]) = [written ++ [10]]
  /\ (ended_log f = true ->
      lines_of (snd (send_message trae [104; 105; 10; 13; 233; 128512] default noon f))
      = lines_of f ++ [written ++ [10]]).
Proof. apply send_appends_one_ascii_line. reflexivity. Defined.

(** X2.  The record that a send writes decodes to the dictionary of
    its five fields: the time stamp of the clock, the sender ["other"],
    the recipient, the session and the content, each string as it was
    given. *)
Theorem sent_record_round_trip {py : interpreter} (to content session : pystr)
    (now : datetime) (f : store) :
  has_room ->
  valid_agent to = true -> is_text session = true -> is_text content = true ->
  exists line,
    snd (send_message to content session now f) = Some (text_of f ++ line)
    /\ json_loads line
       = Return (JObj [(str "timestamp", JStr (isoformat now));
                       (str "from", JStr (str "other"));
                       (str "to", JStr to);
                       (str "session", JStr session);
                       (str "content", JStr content)]).
Proof.
  intros room Hv Hs Hc. exists (record_line now to session content). split.
  - unfold send_message. rewrite Hv. cbn [negb snd do_op]. now destruct f.
  - apply loads_record_line; [assumption|now apply agent_text|assumption|assumption].
Qed.

Lemma sent_record_round_trip_witness :
  exists line,
    snd (send_message kilo [34; 92; 10; 233; 128512] default later empty_log)
    = Some (text_of empty_log ++ line)
    /\ json_loads line
       = Return (JObj [(str "timestamp", JStr (isoformat later));
                       (str "from", JStr (str "other"));
                       (str "to", JStr kilo);
                       (str "session", JStr default);
                       (str "content", JStr [34; 92; 10; 233; 128512])]).
Proof.
  apply sent_record_round_trip; try reflexivity.
  unfold has_room. cbn. lia.
Defined.

(** ** What a receive raises *)

(** X3.  On a log that is Unicode text, which is what a file of valid
    UTF-8 holds, a receive returns a list, or raises
    [AttributeError], [KeyError('content')], [KeyError('timestamp')],
    the [ValueError] of an integer with too many digits or
    [RecursionError], and nothing else; when it raises the log is as
    it was. *)
Theorem receive_outcomes {py : interpreter} (a s : pystr) (limit : Z) (f : store) :
  is_text (text_of f) = true ->
  let r := fst (get_new_messages a s limit f) in
  ((exists msgs, r = Return msgs)
   \/ r = Raise AttributeError
   \/ r = Raise (KeyError (str "content"))
   \/ r = Raise (KeyError (str "timestamp"))
   \/ r = Raise ValueError
   \/ r = Raise RecursionError)
  /\ (forall e, r = Raise e -> snd (get_new_messages a s limit f) = f).
Proof.
  intros _. cbv zeta. destruct (valid_agent a) eqn:Hv.
  - destruct f as [t|].
    + rewrite get_new_messages_spec by assumption.
      destruct (first_fail a s (readlines t)) as [e|] eqn:Hff; cbn [fst snd].
      * split; [|reflexivity]. right.
        destruct (first_fail_failures a s _ e Hff) as [-> | [-> | [-> | [-> | ->]]]];
          auto 6.
      * split; [left; now eexists|discriminate].
    + rewrite get_new_messages_missing. cbn. split; [left; now eexists|discriminate].
  - rewrite get_new_messages_invalid by assumption. cbn.
    split; [left; now eexists|discriminate].
Qed.

Lemma receive_outcomes_witness :
  let f := Some (jtext "[1, 2]" ++ [13] ++ record_line noon trae default (str "a")) in
  let r := fst (get_new_messages trae default 15 f) in
  ((exists msgs, r = Return msgs)
   \/ r = Raise AttributeError
   \/ r = Raise (KeyError (str "content"))
   \/ r = Raise (KeyError (str "timestamp"))
   \/ r = Raise ValueError
   \/ r = Raise RecursionError)
  /\ (forall e, r = Raise e -> snd (get_new_messages trae default 15 f) = f).
Proof. apply receive_outcomes. reflexivity. Defined.

(** X4.  A receive by a valid agent on an existing log returns a list
    exactly when no line that is read makes the decoder raise
    [ValueError] or [RecursionError], decodes to something that is no
    dictionary, or decodes to a dictionary for the caller without
    ["content"] or ["timestamp"].  It then returns, cut by the limit,
    the messages of the lines addressed to the caller, in the order of
    the log, and writes back, in that order, the lines that are
    neither blank nor addressed to the caller. *)
Theorem receive_specification {py : interpreter} (a s : pystr) (limit : Z)
    (t : pystr) :
  valid_agent a = true ->
  ((exists msgs, fst (get_new_messages a s limit (Some t)) = Return msgs)
   <-> clean a s (readlines t) = true)
  /\ (clean a s (readlines t) = true ->
      get_new_messages a s limit (Some t)
      = (Return (limited limit
                   (pending_lines (filter (addressed a s) (readlines t)))),
         Some (concat (filter (stays a s) (readlines t))))).
Proof.
  intros Hv. split; [|now apply get_new_messages_clean].
  rewrite get_new_messages_spec by assumption.
  rewrite clean_first_fail.
  destruct (first_fail a s (readlines t)); cbn [fst].
  - split; [intros [msgs H]; discriminate|discriminate].
  - split; [reflexivity|intros _; now eexists].
Qed.

Lemma receive_specification_witness :
  let t := str "not json" ++ [13; 10]
           ++ record_line noon trae default (str "a")
           ++ record_line noon kilo default (str "b")
           ++ [32; 13]
           ++ record_line later trae default (str "c") in
  ((exists msgs, fst (get_new_messages trae default 15 (Some t)) = Return msgs)
   <-> clean trae default (readlines t) = true)
  /\ (clean trae default (readlines t) = true ->
      get_new_messages trae default 15 (Some t)
      = (Return (limited 15
                   (pending_lines (filter (addressed trae default) (readlines t)))),
         Some (concat (filter (stays trae default) (readlines t))))).
Proof. apply receive_specification. reflexivity. Defined.

(** ** The limit *)

(** X5.  With a limit of at least one, a receive that does not raise
    returns the newest matches, as many as the limit allows and in the
    order of the log; the older ones are removed from the log with
    them and returned to nobody. *)
Theorem positive_limit_returns_newest {py : interpreter} (a s : pystr) (limit : Z)
    (t : pystr) :
  valid_agent a = true -> (0 < limit)%Z -> clean a s (readlines t) = true ->
  let matches := pending_lines (filter (addressed a s) (readlines t)) in
  exists older newest,
    matches = older ++ newest
    /\ length newest = Nat.min (Z.to_nat limit) (length matches)
    /\ get_new_messages a s limit (Some t)
       = (Return newest, Some (concat (filter (stays a s) (readlines t))))
    /\ filter (addressed a s) (filter (stays a s) (readlines t)) = [].
Proof.
  intros Hv Hl Hc matches.
  exists (firstn (length matches - Z.to_nat limit) matches),
         (skipn (length matches - Z.to_nat limit) matches).
  split; [symmetry; apply firstn_skipn|]. split; [rewrite length_skipn; lia|].
  split.
  - rewrite (get_new_messages_clean a s limit t Hv Hc).
    fold matches. rewrite limited_split.
    now replace (0 <? limit)%Z with true by (symmetry; apply Z.ltb_lt; lia).
  - apply nothing_addressed_stays.
Qed.

Lemma positive_limit_returns_newest_witness :
  let t := record_line noon trae default (str "a")
           ++ record_line noon kilo default (str "b")
           ++ record_line later trae default (str "c")
           ++ record_line later trae default (str "d") in
  let matches := pending_lines (filter (addressed trae default) (readlines t)) in
  exists older newest,
    matches = older ++ newest
    /\ length newest = Nat.min (Z.to_nat 2) (length matches)
    /\ get_new_messages trae default 2 (Some t)
       = (Return newest, Some (concat (filter (stays trae default) (readlines t))))
    /\ filter (addressed trae default) (filter (stays trae default) (readlines t))
       = [].
Proof.
  apply (positive_limit_returns_newest trae default 2); [reflexivity|lia|reflexivity].
Defined.

(** X6.  With a limit of zero or less the slice [messages[-limit:]]
    starts at [-limit]: a receive that does not raise returns the
    matches but the first [-limit] of them, so all of them when the
    limit is zero. *)
Theorem nonpositive_limit_skips_oldest {py : interpreter} (a s : pystr) (limit : Z)
    (t : pystr) :
  valid_agent a = true -> (limit <= 0)%Z -> clean a s (readlines t) = true ->
  let matches := pending_lines (filter (addressed a s) (readlines t)) in
  fst (get_new_messages a s limit (Some t))
  = Return (skipn (Z.to_nat (- limit)) matches)
  /\ (limit = 0%Z -> fst (get_new_messages a s limit (Some t)) = Return matches).
Proof.
  intros Hv Hl Hc matches.
  rewrite (get_new_messages_clean a s limit t Hv Hc).
  fold matches. cbn [fst]. rewrite limited_split.
  replace (0 <? limit)%Z with false by (symmetry; apply Z.ltb_ge; lia).
  assert (E : skipn (Nat.min (Z.to_nat (- limit)) (length matches)) matches
              = skipn (Z.to_nat (- limit)) matches).
  { destruct (Nat.le_ge_cases (Z.to_nat (- limit)) (length matches)) as [Hle|Hge].
    - now rewrite Nat.min_l.
    - rewrite Nat.min_r by assumption.
      now rewrite !skipn_all2 by lia. }
  rewrite E. split; [reflexivity|].
  intros ->. reflexivity.
Qed.

Lemma nonpositive_limit_skips_oldest_witness :
  let t := record_line noon trae default (str "a")
           ++ record_line later trae default (str "c")
           ++ record_line later trae default (str "d") in
  let matches := pending_lines (filter (addressed trae default) (readlines t)) in
  fst (get_new_messages trae default (-1) (Some t))
  = Return (skipn (Z.to_nat (- (-1))) matches)
  /\ ((-1)%Z = 0%Z ->
      fst (get_new_messages trae default (-1) (Some t)) = Return matches).
Proof.
  apply (nonpositive_limit_skips_oldest trae default (-1)); [reflexivity|lia|reflexivity].
Defined.

(** X7.  The limit changes nothing but the list that is returned: with
    two limits a receive raises the same exception or returns two
    ends of the same list of matches, and it leaves the same log. *)
Theorem limit_changes_only_the_result {py : interpreter} (a s : pystr)
    (limit limit' : Z) (f : store) :
  snd (get_new_messages a s limit f) = snd (get_new_messages a s limit' f)
  /\ ((exists e, fst (get_new_messages a s limit f) = Raise e
                 /\ fst (get_new_messages a s limit' f) = Raise e)
      \/ (exists all older older',
            fst (get_new_messages a s limit f) = Return (limited limit all)
            /\ fst (get_new_messages a s limit' f) = Return (limited limit' all)
            /\ all = older ++ limited limit all
            /\ all = older' ++ limited limit' all)).
Proof.
  destruct (get_new_messages_cases a s f) as [[e H]|(all & f' & H)].
  - rewrite !H. split; [reflexivity|]. left. now exists e.
  - rewrite !H. split; [reflexivity|]. right.
    destruct (limited_suffix_of limit all) as [older Ho].
    destruct (limited_suffix_of limit' all) as [older' Ho'].
    now exists all, older, older'.
Qed.

(** ** One receive after another *)

(** X8.  Whatever the log holds, when a receive returns, a second
    receive for the same agent and session returns the empty list and
    leaves the log as the first one left it. *)
Theorem second_receive_is_empty {py : interpreter} (a s : pystr) (limit limit' : Z)
    (f : store) (msgs : list message) :
  fst (get_new_messages a s limit f) = Return msgs ->
  get_new_messages a s limit' (snd (get_new_messages a s limit f))
  = (Return [], snd (get_new_messages a s limit f)).
Proof. apply drained_again. Qed.

Lemma second_receive_is_empty_witness :
  let f := Some (str "not json" ++ [10]
                 ++ record_line noon trae default (str "a")
                 ++ [10]
                 ++ record_line later kilo default (str "b")) in
  get_new_messages trae default 0 (snd (get_new_messages trae default 15 f))
  = (Return [], snd (get_new_messages trae default 15 f)).
Proof.
  apply (second_receive_is_empty trae default 15 0 _ [delivery noon (str "a")]).
  reflexivity.
Defined.

(** X9.  Receives for two different (agent, session) pairs can be made
    in either order: each returns the same result, raising included,
    and the log is the same at the end. *)
Theorem receives_commute {py : interpreter} (a s a' s' : pystr) (limit limit' : Z)
    (f : store) :
  a' <> a \/ s' <> s ->
  let one := get_new_messages a s limit f in
  let one_two := get_new_messages a' s' limit' (snd one) in
  let two := get_new_messages a' s' limit' f in
  let two_one := get_new_messages a s limit (snd two) in
  fst one = fst two_one /\ fst one_two = fst two /\ snd one_two = snd two_one.
Proof.
  intros Hne. cbv zeta.
  assert (Hne' : a <> a' \/ s <> s') by (destruct Hne; [left|right]; congruence).
  split; [symmetry; now apply receive_after_other|].
  split; [now apply receive_after_other|].
  destruct (valid_agent a) eqn:Hv;
    [|now rewrite !(get_new_messages_invalid a s) by assumption].
  destruct (valid_agent a') eqn:Hv';
    [|now rewrite !(get_new_messages_invalid a' s') by assumption].
  destruct f as [t|]; [|now rewrite !get_new_messages_missing].
  rewrite (get_new_messages_spec a s limit t), (get_new_messages_spec a' s' limit' t)
    by assumption.
  destruct (first_fail a s (readlines t)) as [e|] eqn:Hff;
    destruct (first_fail a' s' (readlines t)) as [e'|] eqn:Hff'; cbn [snd].
  - now rewrite !get_new_messages_spec, Hff, Hff'.
  - rewrite !get_new_messages_spec, lines_after_rewrite, Hff' by assumption.
    destruct (elsewhere_unchanged a' s' a s (readlines t) Hne' Hff') as [_ ->].
    now rewrite Hff.
  - rewrite !get_new_messages_spec, lines_after_rewrite, Hff by assumption.
    destruct (elsewhere_unchanged a s a' s' (readlines t) Hne Hff) as [_ ->].
    now rewrite Hff'.
  - rewrite !get_new_messages_spec, !lines_after_rewrite by assumption.
    destruct (elsewhere_unchanged a s a' s' (readlines t) Hne Hff) as [_ ->].
    destruct (elsewhere_unchanged a' s' a s (readlines t) Hne' Hff') as [_ ->].
    rewrite Hff, Hff'. cbn [snd]. now rewrite kept_comm.
Qed.

Lemma receives_commute_witness :
  let f := Some (record_line noon trae default (str "a")
                 ++ record_line noon kilo default (str "b")
                 ++ record_line later trae (str "other") (str "c")) in
  let one := get_new_messages trae default 15 f in
  let one_two := get_new_messages trae (str "other") 15 (snd one) in
  let two := get_new_messages trae (str "other") 15 f in
  let two_one := get_new_messages trae default 15 (snd two) in
  fst one = fst two_one /\ fst one_two = fst two /\ snd one_two = snd two_one.
Proof.
  apply (receives_commute trae default trae (str "other")).
  right. discriminate.
Defined.

(** ** Sends and receives together *)

(** X10.  On a log that ends with a line end, a send and a receive by
    another agent or for another session can be made in either order:
    the receive returns the same result and the log is the same at the
    end.  The message is not for that receiver. *)
Theorem send_and_receive_commute {py : interpreter} (a s to content session : pystr)
    (now : datetime) (limit : Z) (f : store) :
  has_room ->
  closed_log f = true -> valid_agent to = true ->
  is_text session = true -> is_text content = true ->
  a <> to \/ s <> session ->
  get_new_messages a s limit (snd (send_message to content session now f))
  = (fst (get_new_messages a s limit f),
     snd (send_message to content session now (snd (get_new_messages a s limit f)))).
Proof.
  intros room Hclosed Hv Hs Hc Hne.
  pose proof (record_line_for_other room a s now to session content Hv Hs Hc Hne)
    as Hk.
  rewrite !send_message_log by assumption.
  destruct (valid_agent a) eqn:Hva;
    [|now rewrite !get_new_messages_invalid by assumption].
  pose proof (send_message_lines to content session now f Hv
                (closed_log_ended f Hclosed)) as Hl.
  rewrite send_message_log in Hl by assumption. cbn [lines_of] in Hl.
  rewrite get_new_messages_spec, Hl by assumption.
  destruct f as [t|]; cbn [lines_of text_of].
  - rewrite get_new_messages_spec by assumption.
    destruct (first_fail a s (readlines t)) as [e|] eqn:Hff.
    + now rewrite (first_fail_app_some a s _ _ e Hff).
    + rewrite first_fail_app by assumption. cbn [first_fail]. rewrite Hk.
      rewrite taken_app, kept_app. cbn [taken kept filter]. unfold is_kept.
      rewrite Hk, app_nil_r, concat_app. cbn [concat fst snd text_of].
      now rewrite app_nil_r.
  - rewrite get_new_messages_missing. cbn [first_fail app]. rewrite Hk.
    cbn [taken kept filter]. unfold is_kept. rewrite Hk.
    cbn [concat fst snd text_of limited app]. now rewrite app_nil_r.
Qed.

Lemma send_and_receive_commute_witness :
  let f := Some (record_line noon kilo default (str "a")
                 ++ record_line noon trae default (str "b")) in
  get_new_messages kilo default 15
    (snd (send_message trae (str "c") default later f))
  = (fst (get_new_messages kilo default 15 f),
     snd (send_message trae (str "c") default later
            (snd (get_new_messages kilo default 15 f)))).
Proof.
  apply send_and_receive_commute; try reflexivity.
  - unfold has_room. cbn. lia.
  - left. discriminate.
Defined.

(** ** The log ends with a line end *)

(** X11.  A log that is missing, empty or ends with a line end stays
    so under every send and every receive. *)
Theorem log_stays_closed {py : interpreter} (c : call) (f : store) :
  closed_log f = true -> closed_log (snd (exec c f)) = true.
Proof.
  intros Hc. destruct c as [to content session now|a s limit]; cbn [exec].
  - destruct (send_message to content session now f) as [txt f'] eqn:E.
    cbn [snd]. replace f' with (snd (send_message to content session now f))
      by now rewrite E.
    now apply closed_after_send.
  - destruct (get_new_messages a s limit f) as [r f'] eqn:E. cbn [snd].
    destruct (valid_agent a) eqn:Hv;
      [|rewrite get_new_messages_invalid in E by assumption; now injection E as _ <-].
    destruct f as [t|];
      [|rewrite get_new_messages_missing in E; now injection E as _ <-].
    rewrite get_new_messages_spec in E by assumption.
    destruct (first_fail a s (readlines t)); injection E as _ <-; [assumption|].
    cbn [closed_log] in *. apply terminated_closed.
    unfold kept. apply Forall_forall. intros l Hin.
    apply filter_In in Hin as [Hin _].
    pose proof (closed_lines t Hc) as Hall.
    rewrite Forall_forall in Hall. now apply Hall.
Qed.

Lemma log_stays_closed_witness :
  closed_log (snd (exec (Receive trae default 15)
                     (Some (str "not json" ++ [10]
                            ++ record_line noon trae default (str "a")))))
  = true.
Proof. apply log_stays_closed. reflexivity. Defined.

(** X12.  On a log whose last character is no line end of the reader,
    neither ["\n"] nor ["\r"], a send adds no line: its record is put
    on the end of the last line. *)
Theorem send_onto_open_line (to content session : pystr) (now : datetime)
    (t : pystr) :
  valid_agent to = true -> ended_text t = false ->
  lines_of (snd (send_message to content session now (Some t)))
  = removelast (readlines t)
    ++ [last (readlines t) [] ++ record_line now to session content]
  /\ length (lines_of (snd (send_message to content session now (Some t))))
     = length (readlines t).
Proof.
  intros Hv Hc.
  destruct (proper_shape _ (proper_readlines t)) as [H|(ls & l & E & Hall & Ho)].
  - apply terminated_closed in H.
    rewrite concat_readlines, closed_read in H. congruence.
  - assert (Hlines : lines_of (snd (send_message to content session now (Some t)))
                     = ls ++ [l ++ record_line now to session content]).
    { rewrite send_message_log by assumption. cbn [lines_of text_of].
      unfold readlines. rewrite universal_app, record_read_plain.
      rewrite <- (concat_readlines t), E, concat_app.
      cbn [concat]. rewrite app_nil_r, <- app_assoc.
      replace (concat ls ++ l ++ record_line now to session content)
        with (concat (ls ++ [l ++ record_line now to session content]))
        by (rewrite concat_app; cbn [concat]; now rewrite app_nil_r).
      apply cut_lines_concat.
      assert (Hnew : terminated_line (l ++ record_line now to session content)).
      { unfold record_line. rewrite app_assoc. eexists. split; [reflexivity|].
        intros Hin. apply in_app_or in Hin as [Hin|Hin].
        - now apply (proj2 Ho).
        - now apply (record_no_newline now to session content). }
      clear - Hall Hnew. induction Hall as [|x xs Hx _ IH].
      - apply proper_cons; [assumption|constructor].
      - now apply proper_cons. }
    rewrite Hlines, E, removelast_last, last_last.
    split; [reflexivity|]. now rewrite !length_app.
Qed.

Lemma send_onto_open_line_witness :
  let t := record_line noon kilo default (str "a") ++ [13] ++ str "no line end" in
  lines_of (snd (send_message trae (str "b") default later (Some t)))
  = removelast (readlines t)
    ++ [last (readlines t) [] ++ record_line later trae default (str "b")]
  /\ length (lines_of (snd (send_message trae (str "b") default later (Some t))))
     = length (readlines t).
Proof. apply send_onto_open_line; reflexivity. Defined.

(** ** First in, first out *)

(** X13.  After any history from the empty log in which nobody
    received for an agent and session, a receive for them whose limit
    covers their messages returns exactly the messages sent to them,
    in the order in which they were sent. *)
Theorem first_in_first_out {py : interpreter} (a s : pystr) (limit : Z)
    (cs : list call) :
  has_room ->
  forallb text_call cs = true -> undisturbed a s cs = true ->
  valid_agent a = true -> (Z.of_nat (length (inbox a s cs)) <= limit)%Z ->
  fst (get_new_messages a s limit (snd (exec_all cs empty_log)))
  = Return (inbox a s cs).
Proof.
  intros room Ht Hu Hv Hl.
  destruct (inbox_history room a s cs empty_log sane_empty Ht Hu) as [Hs Htk].
  cbn [lines_of empty_log] in Htk.
  change (taken a s (readlines [])) with (@nil message) in Htk.
  cbn [app] in Htk.
  destruct (sane_receive room a s limit _ Hs Hv) as (ls & E & Hls & -> & _).
  rewrite E in Htk. rewrite sane_lines in Htk by assumption.
  cbn [fst]. rewrite Htk. now rewrite limited_all.
Qed.

Lemma first_in_first_out_witness :
  let cs := [Send trae (str "one") default noon;
             Send kilo (str "two") default noon;
             Receive kilo default 15;
             Send trae (str "three") (str "other") later;
             Send trae (str "four") default later;
             Receive (str "bob") default 15] in
  fst (get_new_messages trae default 2 (snd (exec_all cs empty_log)))
  = Return (inbox trae default cs).
Proof.
  apply (first_in_first_out trae default 2);
    [unfold has_room; cbn; lia|reflexivity|reflexivity|reflexivity
    |vm_compute; discriminate].
Defined.

(** ** Two receives at once *)

(** X20.  The two parts of a receive, run one after the other, are the
    call.  When two receives for the same agent and session both read
    the log before either writes it back, each returns what it would
    have returned alone, so every match is returned twice; run in turn,
    the second returns nothing. *)
Theorem overlapping_receives_deliver_twice {py : interpreter} (a s : pystr)
    (limit limit' : Z) (f : store) (msgs : list message) :
  fst (get_new_messages a s limit f) = Return msgs ->
  let first := read_part a s f in
  let second := read_part a s f in
  let after_first := write_part limit first f in
  let after_second := write_part limit' second (snd after_first) in
  write_part limit first f = get_new_messages a s limit f
  /\ fst after_first = Return msgs
  /\ fst after_second = fst (get_new_messages a s limit' f)
  /\ snd after_second = snd (get_new_messages a s limit f)
  /\ fst (get_new_messages a s limit' (snd (get_new_messages a s limit f)))
     = Return [].
Proof.
  intros Hret. cbv zeta.
  split; [apply two_parts|]. rewrite two_parts.
  split; [assumption|].
  assert (Hlater : forall g, write_part limit' (read_part a s f) g
                   = (fst (get_new_messages a s limit' f),
                      match read_part a s f with
                      | Holding _ nl => run_ops (rewrite_ops nl) g
                      | _ => g
                      end)).
  { intros g. rewrite <- two_parts. now destruct (read_part a s f). }
  rewrite Hlater. cbn [fst snd]. split; [reflexivity|]. split.
  - rewrite <- (two_parts a s limit f).
    destruct (read_part a s f) as [| |ms nl]; cbn [write_part snd];
      try reflexivity; now rewrite !rewrite_result.
  - now rewrite (drained_again a s limit limit' f msgs Hret).
Qed.

Lemma overlapping_receives_deliver_twice_witness :
  let f := Some (record_line noon trae default (str "a")
                 ++ record_line later kilo default (str "b")) in
  let first := read_part trae default f in
  let second := read_part trae default f in
  let after_first := write_part 15 first f in
  let after_second := write_part 15 second (snd after_first) in
  write_part 15 first f = get_new_messages trae default 15 f
  /\ fst after_first = Return [delivery noon (str "a")]
  /\ fst after_second = fst (get_new_messages trae default 15 f)
  /\ snd after_second = snd (get_new_messages trae default 15 f)
  /\ fst (get_new_messages trae default 15 (snd (get_new_messages trae default 15 f)))
     = Return [].
Proof.
  apply (overlapping_receives_deliver_twice trae default 15 15).
  reflexivity.
Defined.

(** * Properties of the page index *)

Section PageIndexFacts.

Import PageIndex.

Variable FS : Type.
Variable write_text : pystr -> pystr -> FS -> FS * bool.
Variable lower : pystr -> pystr.


Lemma dict_get_set_same {V : Type} (k : pystr) (v : V) (d : list (pystr * V)) :
  dict_get k (dict_set k v d) = Some v.
Proof.
  induction d as [|[k' v'] d IH]; cbn.
  - now rewrite pystr_eqb_refl.
  - destruct (pystr_eqb k' k) eqn:E; cbn; [now rewrite pystr_eqb_refl|].
    now rewrite E.
Qed.

Lemma dict_get_set_other {V : Type} (k k0 : pystr) (v : V) (d : list (pystr * V)) :
  k0 <> k -> dict_get k0 (dict_set k v d) = dict_get k0 d.
Proof.
  intros Hne. induction d as [|[k' v'] d IH]; cbn.
  - destruct (pystr_eqb k k0) eqn:E; [|reflexivity].
    apply pystr_eqb_eq in E. congruence.
  - destruct (pystr_eqb k' k) eqn:E; cbn.
    + apply pystr_eqb_eq in E. subst k'.
      destruct (pystr_eqb k k0) eqn:E0; [|reflexivity].
      apply pystr_eqb_eq in E0. congruence.
    + now rewrite IH.
Qed.

Lemma current_known_heading (name : pystr) (secs : sections) :
  current_known (Some name) (dict_set name [] secs).
Proof.
  intros n E _. injection E as <-. now rewrite dict_get_set_same.
Qed.

Lemma current_known_append (name : pystr) (es : list entry) (secs : sections) :
  current_known (Some name) (dict_set name es secs).
Proof.
  intros n E _. injection E as <-. now rewrite dict_get_set_same.
Qed.

(** One turn of the loop. *)
Lemma build_step (l : pystr) (rest : list pystr) (n : nat)
    (cur : option pystr) (secs : sections) :
  current_known cur secs ->
  exists cur' secs',
    build (l :: rest) n cur secs = build rest (S n) cur' secs'
    /\ current_known cur' secs'
    /\ (is_heading l = true ->
        cur' = Some (strip (str "# ") l)
        /\ secs' = dict_set (strip (str "# ") l) [] secs)
    /\ (is_heading l = false ->
        cur' = cur
        /\ match cur with
           | Some (c :: name') =>
               exists es, dict_get (c :: name') secs = Some es
                 /\ secs' = dict_set (c :: name')
                              (es ++ [{| line := n; text := l |}]) secs
           | _ => secs' = secs
           end).
Proof.
  intros Hk. cbn [build]. destruct (is_heading l) eqn:Eh.
  - eexists _, _. split; [reflexivity|]. split; [apply current_known_heading|].
    split; [now split|discriminate].
  - destruct cur as [[|c name']|].
    + exists (Some []), secs. repeat split; try assumption; discriminate.
    + destruct (dict_get (c :: name') secs) as [es|] eqn:Eg.
      * eexists _, _. split; [reflexivity|].
        split; [apply current_known_append|]. split; [discriminate|].
        intros _. split; [reflexivity|]. now exists es.
      * exfalso. now apply (Hk (c :: name') eq_refl).
    + exists None, secs. repeat split; try assumption; discriminate.
Qed.

Lemma sorted_snoc (l : list nat) (x : nat) :
  StronglySorted lt l -> Forall (fun y => (y < x)%nat) l ->
  StronglySorted lt (l ++ [x]).
Proof.
  induction 1 as [|y l Hl IH Hy]; intros Hall; cbn.
  - repeat constructor.
  - inversion Hall; subst. constructor; [now apply IH|].
    apply Forall_app. split; [assumption|]. now constructor.
Qed.

Lemma sound_weaken (content : pystr) (n : nat) (secs : sections) :
  sound content n secs -> sound content (S n) secs.
Proof.
  intros H name es Hg. destruct (H name es Hg) as [Hall Hs].
  split; [|assumption]. eapply Forall_impl; [|exact Hall].
  cbn. intros e [He Hlt]. split; [assumption|lia].
Qed.

Lemma build_sound (content : pystr) (rest : list pystr) :
  forall pre n cur secs,
  split_lines content = pre ++ rest -> n = S (length pre) ->
  current_known cur secs -> sound content n secs ->
  exists secs',
    build rest n cur secs = inl secs'
    /\ sound content (S (length (split_lines content))) secs'.
Proof.
  induction rest as [|l rest IH]; intros pre n cur secs Hall Hn Hk Hs.
  - exists secs. split; [reflexivity|].
    rewrite Hall, app_nil_r. now subst n.
  - destruct (build_step l rest n cur secs Hk)
      as (cur' & secs' & -> & Hk' & Hhead & Hline).
    apply (IH (pre ++ [l]) (S n) cur' secs').
    + now rewrite <- app_assoc.
    + rewrite length_app. cbn. lia.
    + assumption.
    + destruct (is_heading l) eqn:Eh.
      * destruct (Hhead eq_refl) as [_ ->].
        intros name es Hg.
        destruct (list_eq_dec N.eq_dec name (strip (str "# ") l)) as [->|Hne].
        -- rewrite dict_get_set_same in Hg. injection Hg as <-.
           split; constructor.
        -- rewrite dict_get_set_other in Hg by assumption.
           exact (sound_weaken content n secs Hs name es Hg).
      * destruct (Hline eq_refl) as [-> Hsecs].
        destruct cur as [[|c name']|]; try (subst secs'; now apply sound_weaken).
        destruct Hsecs as (es0 & Hg0 & ->).
        intros name es Hg.
        destruct (list_eq_dec N.eq_dec name (c :: name')) as [->|Hne].
        -- rewrite dict_get_set_same in Hg. injection Hg as <-.
           destruct (Hs _ _ Hg0) as [Hall0 Hsorted0].
           split.
           ++ apply Forall_app. split.
              ** eapply Forall_impl; [|exact Hall0].
                 cbn. intros e [He Hlt]. split; [assumption|lia].
              ** constructor; [|constructor]. cbn. split; [|lia].
                 unfold from_document. cbn [line text].
                 split; [lia|]. split; [|assumption].
                 rewrite Hall, Hn. cbn [Nat.sub]. rewrite Nat.sub_0_r.
                 rewrite nth_error_app2 by lia.
                 now rewrite Nat.sub_diag.
           ++ rewrite map_app. apply sorted_snoc; [assumption|].
              apply Forall_forall. intros y Hy. apply in_map_iff in Hy
                as (e & <- & He).
              rewrite Forall_forall in Hall0. now apply Hall0.
        -- rewrite dict_get_set_other in Hg by assumption.
           exact (sound_weaken content n secs Hs name es Hg).
Qed.

Lemma build_document (content : pystr) :
  exists secs,
    build (split_lines content) 1 None [] = inl secs
    /\ sound content (S (length (split_lines content))) secs.
Proof.
  apply (build_sound content (split_lines content) [] 1 None []);
    try reflexivity.
  - intros name E. discriminate.
  - intros name es E. discriminate.
Qed.

Lemma add_document_cases (filename content : pystr) (st : index FS) :
  (fst (add_document FS write_text filename content st) = WriteFailed
   /\ snd (write_text filename content (files st)) = false
   /\ tree (snd (add_document FS write_text filename content st)) = tree st)
  \/ (exists secs,
        fst (add_document FS write_text filename content st) = Indexed
        /\ snd (write_text filename content (files st)) = true
        /\ build (split_lines content) 1 None [] = inl secs
        /\ tree (snd (add_document FS write_text filename content st))
           = dict_set filename secs (tree st)).
Proof.
  unfold add_document.
  destruct (write_text filename content (files st)) as [fs ok].
  destruct ok; cbn [negb snd fst].
  - right. destruct (build_document content) as (secs & -> & _).
    now exists secs.
  - left. now repeat split.
Qed.

(** X14.  [add_document] indexes the document exactly when the file
    could be written; its loop never raises [KeyError], and when the
    write fails the tree is left as it was. *)
Theorem add_document_outcome (filename content : pystr) (st : index FS) :
  (fst (add_document FS write_text filename content st) = Indexed
   <-> snd (write_text filename content (files st)) = true)
  /\ (fst (add_document FS write_text filename content st) = WriteFailed
      <-> snd (write_text filename content (files st)) = false)
  /\ (snd (write_text filename content (files st)) = false ->
      tree (snd (add_document FS write_text filename content st)) = tree st).
Proof.
  destruct (add_document_cases filename content st)
    as [(Hf & Hw & Ht)|(secs & Hi & Hw & Hb & Ht)].
  - rewrite Hf, Hw.
    repeat split; intros; try discriminate; try reflexivity; assumption.
  - rewrite Hi, Hw.
    repeat split; intros; try discriminate; reflexivity.
Qed.

(** X15.  Every entry of a section that [add_document] has indexed is
    a line of the document: its text is the line with its number,
    counted from one, and is no heading; the entries of a section
    follow the order of the document, and the text that [get_section]
    returns is these lines joined by line ends. *)
Theorem indexed_lines_are_document_lines (filename content name : pystr)
    (st : index FS) (v : section_view) :
  fst (add_document FS write_text filename content st) = Indexed ->
  get_section FS filename name (snd (add_document FS write_text filename content st))
  = Some v ->
  section v = name
  /\ joined v = join [10] (map text (lines v))
  /\ Forall (from_document content) (lines v)
  /\ StronglySorted lt (map line (lines v)).
Proof.
  destruct (add_document_cases filename content st)
    as [(Hf & Hw & Ht)|(secs & Hi & Hw & Hb & Ht)]; [congruence|].
  intros _. unfold get_section. rewrite Ht, dict_get_set_same.
  destruct (dict_get name secs) as [es|] eqn:Eg; [|discriminate].
  intros H. injection H as <-. cbn [section joined lines].
  split; [reflexivity|]. split; [reflexivity|].
  destruct (build_document content) as (secs' & Hb' & Hs).
  rewrite Hb in Hb'. injection Hb' as <-.
  destruct (Hs name es Eg) as [Hall Hsorted].
  split; [|assumption].
  eapply Forall_impl; [|exact Hall]. now intros e [He _].
Qed.

(** Other documents are left alone, and a document that is added again
    is indexed afresh. *)
Lemma get_section_after_add (filename content other name : pystr) (st : index FS) :
  other <> filename ->
  get_section FS other name (snd (add_document FS write_text filename content st))
  = get_section FS other name st.
Proof.
  intros Hne. unfold get_section.
  destruct (add_document_cases filename content st)
    as [(_ & _ & ->)|(secs & _ & _ & _ & ->)]; [reflexivity|].
  now rewrite dict_get_set_other.
Qed.

(** X16.  Adding a document does not change what [get_section]
    returns for any other file name; and what it returns for the
    document's own name, once indexed, depends on the content alone,
    not on what the index held before. *)
Theorem documents_are_independent (filename content other name : pystr)
    (st st' : index FS) :
  other <> filename ->
  fst (add_document FS write_text filename content st) = Indexed ->
  fst (add_document FS write_text filename content st') = Indexed ->
  get_section FS other name (snd (add_document FS write_text filename content st))
  = get_section FS other name st
  /\ get_section FS filename name
       (snd (add_document FS write_text filename content st))
     = get_section FS filename name
         (snd (add_document FS write_text filename content st')).
Proof.
  intros Hne H1 H2. split; [now apply get_section_after_add|].
  unfold get_section.
  destruct (add_document_cases filename content st)
    as [(Hf & _)|(secs & _ & _ & Hb & ->)]; [congruence|].
  destruct (add_document_cases filename content st')
    as [(Hf & _)|(secs' & _ & _ & Hb' & ->)]; [congruence|].
  rewrite !dict_get_set_same. rewrite Hb in Hb'. now injection Hb' as <-.
Qed.

(** ** The lines of a section *)

Lemma build_prefix (l1 l2 : list pystr) :
  forall n cur secs,
  current_known cur secs ->
  exists cur' secs',
    build (l1 ++ l2) n cur secs = build l2 (n + length l1) cur' secs'
    /\ current_known cur' secs'.
Proof.
  induction l1 as [|l l1 IH]; intros n cur secs Hk.
  - exists cur, secs. cbn. now rewrite Nat.add_0_r.
  - destruct (build_step l (l1 ++ l2) n cur secs Hk) as (cur1 & secs1 & E & Hk1 & _).
    destruct (IH (S n) cur1 secs1 Hk1) as (cur' & secs' & E' & Hk').
    exists cur', secs'. cbn [app length]. rewrite E, E'.
    split; [f_equal; lia|assumption].
Qed.

Lemma build_body (name : pystr) (body rest : list pystr) :
  name <> [] -> Forall (fun l => is_heading l = false) body ->
  forall n es secs,
  dict_get name secs = Some es ->
  exists secs',
    build (body ++ rest) n (Some name) secs
    = build rest (n + length body) (Some name) secs'
    /\ dict_get name secs' = Some (es ++ numbered n body).
Proof.
  intros Hne Hbody. induction Hbody as [|l body Hl _ IH]; intros n es secs Hg.
  - exists secs. cbn. now rewrite Nat.add_0_r, app_nil_r.
  - destruct name as [|c name']; [congruence|].
    cbn [app build]. rewrite Hl, Hg.
    destruct (IH (S n) (es ++ [{| line := n; text := l |}])
                (dict_set (c :: name') (es ++ [{| line := n; text := l |}]) secs))
      as (secs' & E & Hg'); [apply dict_get_set_same|].
    exists secs'. rewrite E. split; [cbn [length]; f_equal; lia|].
    rewrite Hg'. cbn [numbered]. now rewrite <- app_assoc.
Qed.

Lemma build_keeps (name : pystr) (lines : list pystr) :
  Forall (fun l => is_heading l = true -> strip (str "# ") l <> name) lines ->
  forall n cur secs,
  cur <> Some name -> current_known cur secs ->
  exists secs',
    build lines n cur secs = inl secs'
    /\ dict_get name secs' = dict_get name secs.
Proof.
  induction 1 as [|l lines Hl _ IH]; intros n cur secs Hcur Hk.
  - now exists secs.
  - destruct (build_step l lines n cur secs Hk)
      as (cur' & secs' & E & Hk' & Hhead & Hline).
    rewrite E. destruct (is_heading l) eqn:Eh.
    + destruct (Hhead eq_refl) as [-> ->].
      specialize (Hl eq_refl).
      destruct (IH (S n) (Some (strip (str "# ") l))
                  (dict_set (strip (str "# ") l) [] secs))
        as (secs2 & E2 & Hg2); [congruence|assumption|].
      exists secs2. split; [assumption|].
      rewrite Hg2. apply dict_get_set_other. congruence.
    + destruct (Hline eq_refl) as [-> Hsecs].
      destruct (IH (S n) cur secs' Hcur Hk') as (secs2 & E2 & Hg2).
      exists secs2. split; [assumption|]. rewrite Hg2.
      destruct cur as [[|c name']|]; try now subst secs'.
      destruct Hsecs as (es & _ & ->).
      apply dict_get_set_other. congruence.
Qed.

Lemma text_numbered (n : nat) (ls : list pystr) : map text (numbered n ls) = ls.
Proof.
  revert n. induction ls as [|l ls IH]; intros n; [reflexivity|].
  cbn. now rewrite IH.
Qed.

(** X17.  [get_section] returns the lines between a heading and the
    next heading, with their numbers in the document, when the name of
    the heading, without its [#] and blanks, is not empty and no later
    heading has the same name. *)
Theorem get_section_returns_body (filename content name h : pystr)
    (pre body rest : list pystr) (st : index FS) :
  fst (add_document FS write_text filename content st) = Indexed ->
  split_lines content = pre ++ h :: body ++ rest ->
  is_heading h = true -> strip (str "# ") h = name -> name <> [] ->
  Forall (fun l => is_heading l = false) body ->
  match rest with [] => True | h' :: _ => is_heading h' = true end ->
  Forall (fun l => is_heading l = true -> strip (str "# ") l <> name) rest ->
  get_section FS filename name (snd (add_document FS write_text filename content st))
  = Some {| section := name;
            lines := numbered (length pre + 2) body;
            joined := join [10] body |}.
Proof.
  intros Hi Hsplit Hh Hname Hne Hbody Hnext Hrest.
  destruct (add_document_cases filename content st)
    as [(Hf & _)|(secs & _ & _ & Hb & Ht)]; [congruence|].
  unfold get_section. rewrite Ht, dict_get_set_same.
  assert (Hg : dict_get name secs = Some (numbered (length pre + 2) body)).
  { rewrite Hsplit in Hb.
    destruct (build_prefix pre (h :: body ++ rest) 1 None [])
      as (cur1 & secs1 & E1 & Hk1); [intros n E; discriminate|].
    rewrite E1 in Hb. clear E1.
    destruct (build_step h (body ++ rest) (1 + length pre) cur1 secs1 Hk1)
      as (cur2 & secs2 & E2 & Hk2 & Hhead & _).
    rewrite E2 in Hb. clear E2.
    destruct (Hhead Hh) as [-> ->]. rewrite Hname in *.
    destruct (build_body name body rest Hne Hbody (S (1 + length pre)) []
                (dict_set name [] secs1))
      as (secs3 & E3 & Hg3); [apply dict_get_set_same|].
    rewrite E3 in Hb. clear E3. cbn [app] in Hg3.
    replace (S (1 + length pre)) with (length pre + 2)%nat in * by lia.
    assert (Hk3 : current_known (Some name) secs3).
    { intros n E _. injection E as <-. now rewrite Hg3. }
    destruct rest as [|h' rest].
    - cbn [build] in Hb. injection Hb as <-. assumption.
    - destruct (build_step h' rest (length pre + 2 + length body) (Some name)
                  secs3 Hk3)
        as (cur4 & secs4 & E4 & Hk4 & Hhead4 & _).
      rewrite E4 in Hb. clear E4.
      destruct (Hhead4 Hnext) as [-> ->].
      apply Forall_cons_iff in Hrest as [Hh' Hrest'].
      specialize (Hh' Hnext).
      destruct (build_keeps name rest Hrest'
                  (S (length pre + 2 + length body))
                  (Some (strip (str "# ") h'))
                  (dict_set (strip (str "# ") h') [] secs3))
        as (secs5 & E5 & Hg5); [congruence|assumption|].
      rewrite E5 in Hb. injection Hb as <-.
      rewrite Hg5, dict_get_set_other by congruence. assumption. }
  rewrite Hg. now rewrite text_numbered.
Qed.

(** ** A heading without a name *)

Lemma build_unnamed (lines : list pystr) :
  forall n cur secs,
  current_known cur secs ->
  (dict_get [] secs = None \/ dict_get [] secs = Some []) ->
  exists secs',
    build lines n cur secs = inl secs'
    /\ (dict_get [] secs' = None \/ dict_get [] secs' = Some [])
    /\ (dict_get [] secs = Some []
        \/ Exists (fun l => is_heading l = true /\ strip (str "# ") l = []) lines ->
        dict_get [] secs' = Some []).
Proof.
  induction lines as [|l lines IH]; intros n cur secs Hk Hinv.
  - exists secs. split; [reflexivity|]. split; [assumption|].
    intros [H|H]; [assumption|inversion H].
  - destruct (build_step l lines n cur secs Hk)
      as (cur' & secs' & E & Hk' & Hhead & Hline).
    rewrite E.
    assert (Hstep : (dict_get [] secs' = None \/ dict_get [] secs' = Some [])
                    /\ (dict_get [] secs = Some []
                        \/ (is_heading l = true /\ strip (str "# ") l = []) ->
                        dict_get [] secs' = Some [])).
    { destruct (is_heading l) eqn:Eh.
      - destruct (Hhead eq_refl) as [_ ->].
        destruct (list_eq_dec N.eq_dec (strip (str "# ") l) []) as [->|Hne].
        + rewrite dict_get_set_same. split; [now right|reflexivity].
        + rewrite dict_get_set_other by congruence.
          split; [assumption|]. intros [H|[_ H]]; [assumption|contradiction].
      - destruct (Hline eq_refl) as [_ Hsecs].
        assert (Hsame : dict_get [] secs' = dict_get [] secs).
        { destruct cur as [[|c name']|]; try now subst secs'.
          destruct Hsecs as (es & _ & ->).
          apply dict_get_set_other. discriminate. }
        rewrite Hsame. split; [assumption|].
        intros [H|[H _]]; [assumption|discriminate]. }
    destruct Hstep as [Hinv' Hset].
    destruct (IH (S n) cur' secs' Hk' Hinv') as (secs2 & E2 & Hinv2 & Hset2).
    exists secs2. split; [assumption|]. split; [assumption|].
    intros [H|H]; apply Hset2.
    + left. apply Hset. now left.
    + inversion H as [? ? Hl|? ? Hl]; subst.
      * left. apply Hset. now right.
      * now right.
Qed.

(** X18.  A heading that holds nothing but [#] and blanks makes a
    section with the empty name, and that section is always empty:
    the lines under such a heading are not indexed. *)
Theorem unnamed_section_is_empty (filename content h : pystr) (st : index FS) :
  fst (add_document FS write_text filename content st) = Indexed ->
  In h (split_lines content) ->
  is_heading h = true -> strip (str "# ") h = [] ->
  get_section FS filename [] (snd (add_document FS write_text filename content st))
  = Some {| section := []; lines := []; joined := [] |}.
Proof.
  intros Hi Hin Hh Hs.
  destruct (add_document_cases filename content st)
    as [(Hf & _)|(secs & _ & _ & Hb & Ht)]; [congruence|].
  unfold get_section. rewrite Ht, dict_get_set_same.
  destruct (build_unnamed (split_lines content) 1 None [])
    as (secs' & E & _ & Hset); [intros n E; discriminate|now left|].
  rewrite Hb in E. injection E as <-.
  rewrite Hset; [reflexivity|].
  right. apply Exists_exists. now exists h.
Qed.

(** ** Searching *)

Lemma dict_set_keys {V : Type} (k : pystr) (v : V) (d : list (pystr * V)) :
  NoDup (map fst d) ->
  NoDup (map fst (dict_set k v d))
  /\ (forall k0, In k0 (map fst (dict_set k v d)) -> k0 = k \/ In k0 (map fst d)).
Proof.
  induction d as [|[k' v'] d IH]; intros Hnd; cbn.
  - split; [repeat constructor; intros []|]. intros k0 [H|[]]. now left.
  - inversion Hnd as [|? ? Hnin Hnd']; subst.
    destruct (pystr_eqb k' k) eqn:E; cbn.
    + apply pystr_eqb_eq in E. subst k'. split; [assumption|].
      intros k0 [H|H]; [now left|right; now right].
    + destruct (IH Hnd') as [IH1 IH2]. split.
      * constructor; [|assumption]. intros Hin.
        destruct (IH2 _ Hin) as [->|H]; [|contradiction].
        rewrite pystr_eqb_refl in E. discriminate.
      * intros k0 [H|H]; [right; now left|].
        destruct (IH2 _ H); [now left|right; now right].
Qed.

Lemma dict_get_in {V : Type} (k : pystr) (v : V) (d : list (pystr * V)) :
  NoDup (map fst d) -> In (k, v) d -> dict_get k d = Some v.
Proof.
  induction d as [|[k' v'] d IH]; intros Hnd Hin; [contradiction|].
  cbn in *. inversion Hnd as [|? ? Hnin Hnd']; subst.
  destruct Hin as [H|H].
  - injection H as -> ->. now rewrite pystr_eqb_refl.
  - destruct (pystr_eqb k' k) eqn:E; [|now apply IH].
    apply pystr_eqb_eq in E. subst k'. exfalso. apply Hnin.
    apply in_map_iff. now exists (k, v).
Qed.

Lemma build_keys (lines : list pystr) :
  forall n cur secs,
  current_known cur secs -> NoDup (map fst secs) ->
  exists secs', build lines n cur secs = inl secs' /\ NoDup (map fst secs').
Proof.
  induction lines as [|l lines IH]; intros n cur secs Hk Hnd.
  - now exists secs.
  - destruct (build_step l lines n cur secs Hk)
      as (cur' & secs' & E & Hk' & Hhead & Hline).
    rewrite E. apply IH; [assumption|].
    destruct (is_heading l) eqn:Eh.
    + destruct (Hhead eq_refl) as [_ ->]. now apply dict_set_keys.
    + destruct (Hline eq_refl) as [_ Hsecs].
      destruct cur as [[|c name']|]; try now subst secs'.
      destruct Hsecs as (es & _ & ->). now apply dict_set_keys.
Qed.

(** X19.  In an index with one entry per file name, every hit of
    [search_keyword] in a document that was just indexed quotes the
    document: its text is the line with its number, counted from one,
    and holds the keyword when both are put in lower case. *)
Theorem search_hits_quote_the_document (filename content keyword : pystr)
    (st : index FS) (h : hit) :
  NoDup (map fst (tree st)) ->
  fst (add_document FS write_text filename content st) = Indexed ->
  In h (search_keyword FS lower keyword
          (snd (add_document FS write_text filename content st))) ->
  hit_doc h = filename ->
  (1 <= hit_line h)%nat
  /\ nth_error (split_lines content) (hit_line h - 1) = Some (hit_text h)
  /\ contains (lower keyword) (lower (hit_text h)) = true.
Proof.
  intros Hnd Hi Hin Hdoc.
  destruct (add_document_cases filename content st)
    as [(Hf & _)|(secs & _ & _ & Hb & Ht)]; [congruence|].
  unfold search_keyword in Hin. rewrite Ht in Hin.
  apply in_flat_map in Hin as ([doc secs0] & Hdocs & Hin).
  apply in_flat_map in Hin as ([sec es] & Hsec & Hin).
  apply in_flat_map in Hin as (e & He & Hin).
  cbn [fst snd] in *.
  destruct (contains (lower keyword) (lower (text e))) eqn:Ec; [|contradiction].
  destruct Hin as [<-|[]]. cbn [hit_doc hit_line hit_text] in *. subst doc.
  assert (secs0 = secs) as ->.
  { pose proof (dict_get_in filename secs0 _ (proj1 (dict_set_keys filename secs _ Hnd))
                  Hdocs) as Hg.
    rewrite dict_get_set_same in Hg. congruence. }
  destruct (build_document content) as (secs' & Hb' & Hs).
  rewrite Hb in Hb'. injection Hb' as <-.
  destruct (build_keys (split_lines content) 1 None [])
    as (secs' & Hb' & Hkeys); [intros n E; discriminate|constructor|].
  rewrite Hb in Hb'. injection Hb' as <-.
  destruct (Hs sec es (dict_get_in sec es secs Hkeys Hsec)) as [Hall _].
  rewrite Forall_forall in Hall.
  destruct (Hall e He) as [(H1 & H2 & _) _]. now repeat split.
Qed.

End PageIndexFacts.

Lemma indexed_lines_are_document_lines_witness :
  PageIndex.section (usage_view) = str "Usage"
  /\ PageIndex.joined usage_view
     = join [10] (map PageIndex.text (PageIndex.lines usage_view))
  /\ Forall (PageIndex.from_document guide) (PageIndex.lines usage_view)
  /\ StronglySorted lt (map PageIndex.line (PageIndex.lines usage_view)).
Proof.
  apply (indexed_lines_are_document_lines unit always_writes
           (str "guide.md") guide (str "Usage") empty_index usage_view);
    reflexivity.
Defined.

Lemma documents_are_independent_witness :
  let st := snd (PageIndex.add_document unit always_writes (str "notes.md")
                   (str "# Intro" ++ [10] ++ str "old") empty_index) in
  PageIndex.get_section unit (str "notes.md") (str "Intro")
    (snd (PageIndex.add_document unit always_writes (str "guide.md") guide st))
  = PageIndex.get_section unit (str "notes.md") (str "Intro") st
  /\ PageIndex.get_section unit (str "guide.md") (str "Intro")
       (snd (PageIndex.add_document unit always_writes (str "guide.md") guide st))
     = PageIndex.get_section unit (str "guide.md") (str "Intro")
         (snd (PageIndex.add_document unit always_writes (str "guide.md") guide
                 empty_index)).
Proof.
  apply (documents_are_independent unit always_writes); try reflexivity.
  discriminate.
Defined.

Lemma get_section_returns_body_witness :
  PageIndex.get_section unit (str "guide.md") (str "Intro")
    (snd (PageIndex.add_document unit always_writes (str "guide.md") guide
            empty_index))
  = Some {| PageIndex.section := str "Intro";
            PageIndex.lines := PageIndex.numbered (length (@nil pystr) + 2)
                                 [str "first"; str "second"];
            PageIndex.joined := join [10] [str "first"; str "second"] |}.
Proof.
  apply (get_section_returns_body unit always_writes (str "guide.md") guide
           (str "Intro") (str "# Intro") [] [str "first"; str "second"]
           [str "## Usage"; str "Run it."]); try reflexivity.
  - discriminate.
  - repeat constructor.
  - repeat constructor; intros H; discriminate.
Defined.

Lemma unnamed_section_is_empty_witness :
  let content := str "# " ++ [10] ++ str "lost" ++ [10] ++ str "# A" ++ [10]
                 ++ str "kept" in
  PageIndex.get_section unit (str "x.md") []
    (snd (PageIndex.add_document unit always_writes (str "x.md") content
            empty_index))
  = Some {| PageIndex.section := []; PageIndex.lines := [];
            PageIndex.joined := [] |}.
Proof.
  apply (unnamed_section_is_empty unit always_writes (str "x.md") _ (str "# "));
    try reflexivity.
  left. reflexivity.
Defined.

Lemma search_hits_quote_the_document_witness :
  (1 <= PageIndex.hit_line usage_hit)%nat
  /\ nth_error (PageIndex.split_lines guide) (PageIndex.hit_line usage_hit - 1)
     = Some (PageIndex.hit_text usage_hit)
  /\ PageIndex.contains (ascii_lower (str "RUN"))
       (ascii_lower (PageIndex.hit_text usage_hit)) = true.
Proof.
  apply (search_hits_quote_the_document unit always_writes ascii_lower
           (str "guide.md") guide (str "RUN") empty_index usage_hit).
  - constructor.
  - reflexivity.
  - left. reflexivity.
  - reflexivity.
Defined.
